(** * taskscheduler: a shallow embedding of [taskscheduler.py]

    The module builds Windows Task Scheduler definitions from nested Python
    dictionaries and keeps a scheduler folder in step with a list of tasks.
    This development embeds

    - the constant tables and the value resolver ([flag_value], [parse_value]),
    - the path helper [task_path],
    - the attribute projector [set_task_attributes] and [build], over a store
      of Python dictionaries and lists and a model of the COM task object,
    - [register], [task_exists] and [sync], over a model of the scheduler
      service that records every call made to it.

    Python exceptions are values of [exn]; a computation returns an [outcome]
    next to the state it leaves behind. *)

From Stdlib Require Import ZArith String Ascii List Lia Permutation.
From stdpp Require Import base option list gmap sets strings.

Local Open Scope string_scope.
Local Open Scope list_scope.

(** ** Exceptions and outcomes *)

Inductive exn :=
| KeyError (key : string)
| TypeError
| AttributeError (msg : string)
| IndexError
| RecursionError
| com_error (hresult : Z).

Inductive outcome (A : Type) :=
| Ok (a : A)
| Raise (e : exn).
Arguments Ok {A} a.
Arguments Raise {A} e.

Definition obind {A B} (x : outcome A) (f : A -> outcome B) : outcome B :=
  match x with
  | Ok a => f a
  | Raise e => Raise e
  end.

(** ** Python values

    Dictionaries and lists are objects of a store and are held by reference
    ([VRef]); everything else is immutable.  A date is represented by the text
    its [isoformat()] returns, a zero-argument callable by the value a call to
    it returns. *)

Abbreviation loc := nat (only parsing).

Inductive value :=
| VNone
| VBool (b : bool)
| VInt (z : Z)
| VStr (s : string)
| VDate (iso : string)
| VCallable (ret : value)
| VRef (l : loc).

Inductive obj :=
| ODict (items : list (string * value))
| OList (elems : list value).

(** The store: location [l] is the [l]-th object allocated. *)
Abbreviation heap := (list obj).

Definition alloc (o : obj) (h : heap) : heap * loc := (h ++ [o], length h).

Definition as_dict (h : heap) (v : value) : option (list (string * value)) :=
  match v with
  | VRef l => match h !! l with Some (ODict items) => Some items | _ => None end
  | _ => None
  end.

Definition as_list (h : heap) (v : value) : option (list value) :=
  match v with
  | VRef l => match h !! l with Some (OList elems) => Some elems | _ => None end
  | _ => None
  end.

Definition isinstance_dict (h : heap) (v : value) : bool :=
  match as_dict h v with Some _ => true | None => false end.

Definition isinstance_list (h : heap) (v : value) : bool :=
  match as_list h v with Some _ => true | None => false end.

(** ** Constant tables *)

Definition table := list (string * Z).

Fixpoint dict_get {A} (k : string) (d : list (string * A)) : option A :=
  match d with
  | [] => None
  | (k', v) :: d' => if String.eqb k k' then Some v else dict_get k d'
  end.

Definition TRIGGER_TYPES : table :=
  [("EVENT", 0); ("TIME", 1); ("DAILY", 2); ("WEEKLY", 3); ("MONTHLY", 4);
   ("MONTHLYDOW", 5); ("IDLE", 6); ("REGISTRATION", 7); ("BOOT", 8);
   ("LOGON", 9); ("SESSION_STATE_CHANGE", 11)]%Z.

Definition ACTION_TYPES : table :=
  [("EXEC", 0); ("COM_HANDLER", 5); ("SEND_EMAIL", 6); ("SHOW_MESSAGE", 7)]%Z.

Definition LOGON_TYPES : table :=
  [("NONE", 0); ("PASSWORD", 1); ("S4U", 2); ("INTERACTIVE_TOKEN", 3);
   ("GROUP", 4); ("SERVICE_ACCOUNT", 5);
   ("INTERACTIVE_TOKEN_OR_PASSWORD", 6)]%Z.

Definition TASK_RUNLEVEL_TYPE : table := [("LUA", 0); ("HIGHEST", 1)]%Z.

Definition TASK_CREATION_FLAGS : table :=
  [("VALIDATE_ONLY", 0x1); ("CREATE", 0x2); ("UPDATE", 0x4);
   ("CREATE_OR_UPDATE", 0x6); ("DISABLE", 0x8);
   ("DONT_ADD_PRINCIPAL_ACE", 0x10);
   ("IGNORE_REGISTRATION_TRIGGERS", 0x20)]%Z.

Definition DAYSOFWEEK : table :=
  [("Sunday", 0x1); ("Monday", 0x2); ("Tuesday", 0x4); ("Wednesday", 0x8);
   ("Thursday", 0x10); ("Friday", 0x20); ("Saturday", 0x40)]%Z.

Definition DAYSOFMONTH : table :=
  [("1", 0x1); ("2", 0x2); ("3", 0x4); ("4", 0x8); ("5", 0x10); ("6", 0x20);
   ("7", 0x40); ("8", 0x80); ("9", 0x100); ("10", 0x200); ("11", 0x400);
   ("12", 0x800); ("13", 0x1000); ("14", 0x2000); ("15", 0x4000);
   ("16", 0x8000); ("17", 0x10000); ("18", 0x20000); ("19", 0x40000);
   ("20", 0x80000); ("21", 0x100000); ("22", 0x200000); ("23", 0x400000);
   ("24", 0x800000); ("25", 0x1000000); ("26", 0x2000000);
   ("27", 0x4000000); ("28", 0x8000000); ("29", 0x10000000);
   ("30", 0x20000000); ("31", 0x40000000); ("Last", 0x80000000)]%Z.

Definition MONTHSOFYEAR : table :=
  [("January", 0x1); ("February", 0x2); ("March", 0x4); ("April", 0x8);
   ("May", 0x10); ("June", 0x20); ("July", 0x40); ("August", 0x80);
   ("September", 0x100); ("October", 0x200); ("November", 0x400);
   ("December", 0x800)]%Z.

Definition MAPPINGS : list (string * table) :=
  [("LogonType", LOGON_TYPES); ("RunLevel", TASK_RUNLEVEL_TYPE)].

Definition BITFLAG_MAPPINGS : list (string * table) :=
  [("DaysOfWeek", DAYSOFWEEK); ("DaysOfMonth", DAYSOFMONTH);
   ("MonthsOfYear", MONTHSOFYEAR)].

(** ** The value resolver *)

(** [mapping.get(x, x)]: only a string can equal a key of a table; a
    dictionary or a list is unhashable and makes the lookup itself fail. *)
Definition mapping_get (mapping : table) (x : value) : outcome value :=
  match x with
  | VStr s => match dict_get s mapping with
              | Some n => Ok (VInt n)
              | None => Ok x
              end
  | VRef _ => Raise TypeError
  | _ => Ok x
  end.

(** [a | y] for an integer [a]: defined for integers and booleans (a Python
    [bool] is an [int]), a [TypeError] for everything else. *)
Definition int_or (a : Z) (y : value) : outcome Z :=
  match y with
  | VInt z => Ok (Z.lor a z)
  | VBool b => Ok (Z.lor a (if b then 1 else 0))
  | _ => Raise TypeError
  end.

(** [reduce(f, li, a)] with [f = lambda a, x: a | mapping.get(x, x)]. *)
Fixpoint reduce_or (mapping : table) (a : Z) (li : list value) : outcome Z :=
  match li with
  | [] => Ok a
  | x :: li' =>
      obind (mapping_get mapping x) (fun y =>
      obind (int_or a y) (fun a' => reduce_or mapping a' li'))
  end.

Definition flag_value (li : list value) (mapping : table) : outcome Z :=
  reduce_or mapping 0 li.

Definition parse_value (h : heap) (key : string) (v : value) : outcome value :=
  match dict_get key BITFLAG_MAPPINGS, as_list h v with
  | Some mapping, Some li =>
      (* the value must be computed from a list of flags *)
      obind (flag_value li mapping) (fun z => Ok (VInt z))
  | _, _ =>
      match dict_get key MAPPINGS, v with
      | Some mapping, VStr s =>
          (* the value can be str-mapped: [MAPPINGS[key][value]] *)
          match dict_get s mapping with
          | Some n => Ok (VInt n)
          | None => Raise (KeyError s)
          end
      | _, _ =>
          match v with
          | VDate iso => Ok (VStr iso)
          | VCallable ret => Ok ret
          | _ => Ok v
          end
      end
  end.

(** ** Paths

    [Path] stands for [pathlib.Path] (a Windows path) on the text it is
    built from.  Of pathlib only what the module uses is modelled: [str],
    [parent], [name] and equality, on backslash-separated text.  What
    pathlib itself does to the text it is given (repeated or trailing
    separators, dot components, drive and share prefixes, letter case) is
    not part of this module and is left out: a [Path] keeps its text. *)

Record Path := Path_of { str : string }.

Definition sep : ascii := "\"%char.

(** [s.replace(old, new)] for one-character [old] and [new]. *)
Fixpoint replace (old new : ascii) (s : string) : string :=
  match s with
  | EmptyString => EmptyString
  | String c s' =>
      String (if Ascii.eqb c old then new else c) (replace old new s')
  end.

Definition startswith (s : string) (c : ascii) : bool :=
  match s with
  | String c' _ => Ascii.eqb c' c
  | EmptyString => false
  end.

Definition task_path (path : string) : Path :=
  let path := replace "/"%char sep path in
  Path_of (if startswith path sep then path else String sep path).

(** Splitting at the last separator: [rsplit s = Some (pre, nm)] when
    [s = pre ++ sep ++ nm] and [nm] holds no separator. *)
Fixpoint rsplit (s : string) : option (string * string) :=
  match s with
  | EmptyString => None
  | String c s' =>
      match rsplit s' with
      | Some (pre, nm) => Some (String c pre, nm)
      | None => if Ascii.eqb c sep then Some (EmptyString, s') else None
      end
  end.

Definition root : Path := Path_of (String sep EmptyString).

Definition parent (p : Path) : Path :=
  match rsplit (str p) with
  | Some (EmptyString, _) => root
  | Some (pre, _) => Path_of pre
  | None => Path_of "."
  end.

Definition name (p : Path) : string :=
  match rsplit (str p) with
  | Some (_, nm) => nm
  | None => str p
  end.

(** ** The COM task object

    [win32com] hands out a tree of objects addressed by attribute name, with
    two collections whose elements are made by [Create].  An object of the
    tree is identified by the way that leads to it from the task definition;
    the task definition records the value last assigned to every property
    and, for every collection, the type codes its elements were created
    with, in creation order.  The object accepts every attribute name. *)

Inductive seg :=
| Attr (key : string)
| Item (i : nat).

#[global] Instance seg_eq_dec : EqDecision seg.
Proof. solve_decision. Defined.

#[global] Instance seg_countable : Countable seg :=
  inj_countable'
    (fun s => match s with Attr k => inl k | Item i => inr i end)
    (fun x => match x with inl k => Attr k | inr i => Item i end)
    (fun s => match s with Attr _ => eq_refl | Item _ => eq_refl end).

Abbreviation handle := (list seg).

Record comobj := {
  props : gmap (list seg) value;
  colls : gmap (list seg) (list value)
}.

(** [client.NewTask(0)] *)
Definition NewTask : comobj := {| props := ∅; colls := ∅ |}.

Definition getattr (task : handle) (key : string) : handle := task ++ [Attr key].

Definition com_setattr (task : handle) (key : string) (v : value) (c : comobj)
  : comobj :=
  {| props := <[getattr task key := v]> (props c); colls := colls c |}.

Definition com_Create (collection : handle) (code : value) (c : comobj)
  : comobj * handle :=
  let old := default [] (colls c !! collection) in
  ({| props := props c; colls := <[collection := old ++ [code]]> (colls c) |},
   collection ++ [Item (length old)]).

(** ** Stateful computations

    A computation runs on a state, may raise, and leaves a state behind in
    both cases. *)

Definition M (S A : Type) := S -> S * outcome A.

Definition ret {S A} (a : A) : M S A := fun s => (s, Ok a).
Definition raise {S A} (e : exn) : M S A := fun s => (s, Raise e).
Definition lift {S A} (x : outcome A) : M S A := fun s => (s, x).

Definition bind {S A B} (m : M S A) (f : A -> M S B) : M S B :=
  fun s => match m s with
           | (s', Ok a) => f a s'
           | (s', Raise e) => (s', Raise e)
           end.

Notation "x <~ m ; k" := (bind m (fun x => k))
  (at level 20, m at level 100, k at level 200, only parsing).
Notation "'run' m ; k" := (bind m (fun _ => k))
  (at level 20, m at level 100, k at level 200, only parsing).

(** [for x in l: body(x)] *)
Fixpoint for_each {S A} (l : list A) (body : A -> M S unit) : M S unit :=
  match l with
  | [] => ret tt
  | x :: l' => run body x ; for_each l' body
  end.

(** ** The attribute projector *)

(** The interpreter state of a build: the store and the task definition
    under construction. *)
Record pystate := { py_heap : heap; py_task : comobj }.

Definition get_heap : M pystate heap := fun s => (s, Ok (py_heap s)).

(** [d.items()] *)
Definition dict_items (h : heap) (d : value) : outcome (list (string * value)) :=
  match as_dict h d with
  | Some items => Ok items
  | None => Raise (AttributeError "items")
  end.

(** [d[key]] for a string [key] *)
Definition getitem (h : heap) (d : value) (key : string) : outcome value :=
  match as_dict h d with
  | Some items =>
      match dict_get key items with
      | Some v => Ok v
      | None => Raise (KeyError key)
      end
  | None => Raise TypeError
  end.

Definition key_in (k : string) (keys : list string) : bool :=
  existsb (String.eqb k) keys.

(** [{k: v for k, v in d.items() if k not in keys}]: the result is a new
    dictionary of the store. *)
Definition filter_keys (d : value) (keys : list string) : M pystate value :=
  fun s =>
    match dict_items (py_heap s) d with
    | Ok items =>
        let (h', l) :=
          alloc (ODict (List.filter (fun kv => negb (key_in (fst kv) keys)) items))
                (py_heap s) in
        ({| py_heap := h'; py_task := py_task s |}, Ok (VRef l))
    | Raise e => (s, Raise e)
    end.

Definition setattr (task : handle) (key : string) (v : value) : M pystate unit :=
  fun s => ({| py_heap := py_heap s;
               py_task := com_setattr task key v (py_task s) |}, Ok tt).

Definition Create (collection : handle) (code : value) : M pystate handle :=
  fun s => let (c, item) := com_Create collection code (py_task s) in
           ({| py_heap := py_heap s; py_task := c |}, Ok item).

(** [depth] is the number of nested calls the interpreter still allows;
    Python raises [RecursionError] beyond it.  A loop runs over the items the
    dictionary or list has when the loop starts. *)
Fixpoint set_task_attributes (depth : nat) (task : handle) (attributes : value)
  : M pystate unit :=
  match depth with
  | O => raise RecursionError
  | S depth' =>
      h <~ get_heap ;
      items <~ lift (dict_items h attributes) ;
      for_each items (fun '(key, value) =>
        h <~ get_heap ;
        if isinstance_dict h value then
          (* recursively set attributes for nested dictionaries *)
          set_task_attributes depth' (getattr task key) value
        else if isinstance_list h value && key_in key ["Triggers"; "Actions"] then
          (* lists for the Triggers and Actions collections *)
          let collection := getattr task key in
          for_each (default [] (as_list h value)) (fun item =>
            h <~ get_heap ;
            type <~ lift (getitem h item "Type") ;
            code <~ lift (mapping_get (if String.eqb key "Triggers"
                                       then TRIGGER_TYPES else ACTION_TYPES)
                                      type) ;
            collection_item <~ Create collection code ;
            filtered <~ filter_keys item ["Type"] ;
            set_task_attributes depth' collection_item filtered)
        else
          (* set value *)
          v <~ lift (parse_value h key value) ;
          setattr task key v)
  end.

(** ** Tasks and the task builder *)

Record Task := { path : Path; definition : comobj }.

(** [task_path(v)] for an arbitrary value: [v.replace] exists on strings
    (and, with another signature, on dates). *)
Definition task_path_of (v : value) : outcome Path :=
  match v with
  | VStr s => Ok (task_path s)
  | VDate _ => Raise TypeError
  | _ => Raise (AttributeError "replace")
  end.

(** [build]: [task_attributes['Path']] is read first, for the log line;
    the projections run on a fresh task definition; the caller sees the
    store and the task (or the exception). *)
Definition build (depth : nat) (task_defaults task_attributes : value)
  : M heap Task :=
  fun h =>
    let m : M pystate Task :=
      h0 <~ get_heap ;
      _ <~ lift (getitem h0 task_attributes "Path") ;
      run set_task_attributes depth [] task_defaults ;
      filtered <~ filter_keys task_attributes ["Path"] ;
      run set_task_attributes depth [] filtered ;
      h1 <~ get_heap ;
      p <~ lift (getitem h1 task_attributes "Path") ;
      tp <~ lift (task_path_of p) ;
      fun s => (s, Ok {| path := tp; definition := py_task s |}) in
    let (s, r) := m {| py_heap := h; py_task := NewTask |} in
    (py_heap s, r).

(** ** The scheduler service

    The Task Scheduler service is an external collaborator.  Its model keeps
    the folders and the registered tasks by path text and logs every call.
    A call either fails with the error the [fault] oracle injects for it (any
    failure of the real service: access denied, RPC failure, ...) or behaves
    as documented for the service: creating an existing folder fails, getting
    or deleting what does not exist fails, registration obeys the creation
    flags. *)

#[global] Instance Path_eq_dec : EqDecision Path.
Proof. solve_decision. Defined.

#[global] Instance Path_countable : Countable Path :=
  inj_countable' str Path_of (fun p => match p with Path_of _ => eq_refl end).

Inductive call :=
| CreateFolder (folder : string)
| GetFolder (folder : string)
| GetTask (task : string)
| GetTasks (folder : string)
| RegisterTaskDefinition (folder name : string) (definition : comobj)
    (flags : Z) (userId password : option string) (logonType : value)
| DeleteTask (task : string).

Record world := {
  folders : gset string;
  tasks : gmap string comobj;
  trace : list call
}.

Definition ERROR_FILE_NOT_FOUND : Z := (-2147024894)%Z.
Definition ERROR_ALREADY_EXISTS : Z := (-2147024713)%Z.

Definition is_register (c : call) : bool :=
  match c with RegisterTaskDefinition _ _ _ _ _ _ _ => true | _ => false end.

Definition is_delete (c : call) : bool :=
  match c with DeleteTask _ => true | _ => false end.

(** The path of the task [name] of [folder]. *)
Definition join (folder name : string) : string :=
  if String.eqb folder (str root) then String sep name
  else folder ++ String sep name.

(** The folders on the way to [rest], [done] being the text already read. *)
Fixpoint folder_chain (done rest : string) : list string :=
  match rest with
  | EmptyString => [done]
  | String c rest' =>
      (if Ascii.eqb c sep && negb (String.eqb done EmptyString)
       then [done] else [])
      ++ folder_chain (done ++ String c EmptyString) rest'
  end.

Definition folder_exists_in (w : world) (folder : string) : bool :=
  String.eqb folder (str root) || bool_decide (folder ∈ folders w).

Definition tasks_of (w : world) (folder : string) : list string :=
  List.filter (fun p => bool_decide (parent (Path_of p) = Path_of folder))
              (elements (dom (tasks w))).

Section Service.

(** [fault history c]: the error, if any, the service answers call [c]
    with after the calls of [history]. *)
Variable fault : list call -> call -> option Z.

(** Python does not fix the order in which a [for] loop visits a set:
    [set_order X] is the order in which the elements of [X] are visited. *)
Variable set_order : gset Path -> list Path.

Definition log (c : call) (w : world) : world :=
  {| folders := folders w; tasks := tasks w; trace := trace w ++ [c] |}.

(** One call: logged, then failed by the oracle or served by [serve]. *)
Definition native {A} (c : call) (serve : world -> world * outcome A)
  : M world A :=
  fun w =>
    match fault (trace w) c with
    | Some hresult => (log c w, Raise (com_error hresult))
    | None => serve (log c w)
    end.

Definition native_CreateFolder (folder : string) : M world string :=
  native (CreateFolder folder) (fun w =>
    if folder_exists_in w folder then (w, Raise (com_error ERROR_ALREADY_EXISTS))
    else ({| folders := list_to_set (folder_chain EmptyString folder) ∪ folders w;
             tasks := tasks w; trace := trace w |}, Ok folder)).

Definition native_GetFolder (folder : string) : M world string :=
  native (GetFolder folder) (fun w =>
    if folder_exists_in w folder then (w, Ok folder)
    else (w, Raise (com_error ERROR_FILE_NOT_FOUND))).

Definition native_GetTask (task : string) : M world string :=
  native (GetTask task) (fun w =>
    match tasks w !! task with
    | Some _ => (w, Ok task)
    | None => (w, Raise (com_error ERROR_FILE_NOT_FOUND))
    end).

(** The [Path] fields of the tasks of a folder. *)
Definition native_GetTasks (folder : string) : M world (list string) :=
  native (GetTasks folder) (fun w => (w, Ok (tasks_of w folder))).

Definition native_RegisterTaskDefinition (folder name : string)
    (definition : comobj) (flags : Z) (userId password : option string)
    (logonType : value) : M world unit :=
  native (RegisterTaskDefinition folder name definition flags userId
                                 password logonType) (fun w =>
    let p := join folder name in
    let stored := {| folders := folders w;
                     tasks := <[p := definition]> (tasks w);
                     trace := trace w |} in
    if Z.testbit flags 0 then (w, Ok tt)              (* VALIDATE_ONLY *)
    else match tasks w !! p with
         | Some _ =>
             if Z.testbit flags 2 then (stored, Ok tt)   (* UPDATE *)
             else (w, Raise (com_error ERROR_ALREADY_EXISTS))
         | None =>
             if Z.testbit flags 1 then (stored, Ok tt)   (* CREATE *)
             else (w, Raise (com_error ERROR_FILE_NOT_FOUND))
         end).

Definition native_DeleteTask (task : string) : M world unit :=
  native (DeleteTask task) (fun w =>
    match tasks w !! task with
    | Some _ => ({| folders := folders w; tasks := delete task (tasks w);
                    trace := trace w |}, Ok tt)
    | None => (w, Raise (com_error ERROR_FILE_NOT_FOUND))
    end).

(** ** The scheduler class *)

(** [with contextlib.suppress(pywintypes.com_error): body] *)
Definition suppress_com_error {A} (body : M world A) : M world unit :=
  fun w =>
    match body w with
    | (w', Ok _) => (w', Ok tt)
    | (w', Raise (com_error _)) => (w', Ok tt)
    | (w', Raise e) => (w', Raise e)
    end.

Definition _get_and_create_folder (p : Path) : M world string :=
  run suppress_com_error (native_CreateFolder (str p)) ;
  native_GetFolder (str p).

(** The folder is ensured first, since Python evaluates the callee
    [self._get_and_create_folder(...).RegisterTaskDefinition] before the
    arguments of the call. *)
Definition register (task : Task) (logonType : value)
    (userId password : option string) (creation_flag : value)
  : M world unit :=
  folder <~ _get_and_create_folder (parent (path task)) ;
  flags <~ lift (flag_value [creation_flag] TASK_CREATION_FLAGS) ;
  logon <~ lift (mapping_get LOGON_TYPES logonType) ;
  native_RegisterTaskDefinition folder (name (path task)) (definition task)
                                flags userId password logon.

(** [try: getTask; return True / except com_error: return False] *)
Definition task_exists (p : Path) : M world bool :=
  fun w =>
    match native_GetTask (str p) w with
    | (w', Ok _) => (w', Ok true)
    | (w', Raise (com_error _)) => (w', Ok false)
    | (w', Raise e) => (w', Raise e)
    end.

Definition get_tasks (p : Path) : M world (list string) :=
  folder <~ native_GetFolder (str p) ;
  native_GetTasks folder.

Definition delete_task (p : Path) : M world unit :=
  native_DeleteTask (str p).

Definition sync (tasks : list Task) (logonType : value)
    (userId password : option string) : M world unit :=
  (* validation *)
  if decide (1 < size (list_to_set (map (fun task => parent (path task)) tasks)
                        : gset Path))
  then raise (AttributeError "The tasks must belong to the same folder")
  else
    match tasks with
    | [] => raise IndexError
    | task0 :: _ =>
        let folder := parent (path task0) in
        if decide (folder = root)
        then raise (AttributeError
          "The tasks' folder can't be root (there is a high risk of deleting unrelated tasks)")
        else
          (* creation / update *)
          run for_each tasks (fun task =>
                found <~ task_exists (path task) ;
                register task logonType userId password
                         (VStr (if found then "UPDATE" else "CREATE"))) ;
          (* suppression *)
          live <~ get_tasks folder ;
          let folder_task_paths : gset Path := list_to_set (map Path_of live) in
          let wanted_task_paths : gset Path := list_to_set (map path tasks) in
          for_each (set_order (folder_task_paths ∖ wanted_task_paths)) delete_task
    end.

End Service.

(** * Notions used in the statements *)

(** ** Bit-flag resolution *)

(** The code a list element contributes to the mask. *)
Definition flag_code (mapping : table) (x : value) : Z :=
  match x with
  | VStr s => default 0%Z (dict_get s mapping)
  | VInt z => z
  | VBool b => if b then 1%Z else 0%Z
  | _ => 0%Z
  end.

Definition or_all (mapping : table) (li : list value) : Z :=
  fold_right (fun x acc => Z.lor (flag_code mapping x) acc) 0%Z li.

(** A known flag name of [mapping]. *)
Definition known_flag (mapping : table) (x : value) : Prop :=
  exists s n, x = VStr s /\ dict_get s mapping = Some n.

(** ** Path normalisation *)

(** The number of separators a text starts with. *)
Fixpoint leading_seps (s : string) : nat :=
  match s with
  | String c s' => if Ascii.eqb c sep then S (leading_seps s') else 0
  | EmptyString => 0
  end.

Fixpoint contains (c : ascii) (s : string) : bool :=
  match s with
  | String c' s' => Ascii.eqb c' c || contains c s'
  | EmptyString => false
  end.


(** ** Service calls *)

Definition E_ACCESSDENIED : Z := (-2147024891)%Z.

(** A service that denies every folder creation and serves all other calls. *)
Definition deny_folder_creation (history : list call) (c : call) : option Z :=
  match c with
  | CreateFolder _ => Some E_ACCESSDENIED
  | _ => None
  end.

(** A service that denies every task lookup. *)
Definition deny_task_lookup (history : list call) (c : call) : option Z :=
  match c with
  | GetTask _ => Some E_ACCESSDENIED
  | _ => None
  end.

(** A service that never fails on its own. *)
Definition no_fault (history : list call) (c : call) : option Z := None.

(** A scheduler with the folder [\foo] holding the tasks [A] and [B]. *)
Definition world_foo_A_B : world :=
  {| folders := {["\foo"]};
     tasks := {["\foo\A" := NewTask; "\foo\B" := NewTask]};
     trace := [] |}.

Definition task_at (p : string) : Task :=
  {| path := task_path p; definition := NewTask |}.

(** The claim of C7: a folder-creation failure other than "already exists"
    reaches the caller of [register]. *)
Definition creation_failure_propagates (fault : list call -> call -> option Z)
    (task : Task) (w : world) : Prop :=
  forall hresult logonType userId password creation_flag,
    snd (native_CreateFolder fault (str (parent (path task))) w)
      = Raise (com_error hresult) ->
    hresult <> ERROR_ALREADY_EXISTS ->
    snd (register fault task logonType userId password creation_flag w)
      = Raise (com_error hresult).


(** ** Reconciliation *)

(** [order] visits the elements of a set, and nothing else. *)
Definition visits_elements (order : gset Path -> list Path) : Prop :=
  forall X p, In p (order X) <-> p ∈ X.

(** The tasks the service holds directly in [folder]. *)
Definition live_tasks (w : world) (folder : Path) : gset Path :=
  list_to_set (map Path_of (tasks_of w (str folder))).

(** A path as the task builder makes them: it starts with a separator. *)
Definition absolute (p : Path) : Prop := startswith (str p) sep = true.

(** In a sequence of calls every registration comes before every deletion. *)
Definition registers_before_deletes (calls : list call) : Prop :=
  forall i j c d,
    calls !! i = Some c -> calls !! j = Some d ->
    is_register c = true -> is_delete d = true -> i < j.

(** ** Invariants of stateful computations *)

(** Every run of [m] relates the state it starts from to the state it
    leaves, whether it returns or raises. *)
Definition preserves {S A} (R : S -> S -> Prop) (m : M S A) : Prop :=
  forall s s' r, m s = (s', r) -> R s s'.

(** The store of [s'] is the store of [s] followed by new objects. *)
Definition store_grows (s s' : pystate) : Prop :=
  exists new, py_heap s' = py_heap s ++ new.

(** ** Configuration layers *)

(** A reference of a value points into the store. *)
Definition closed_value (h : heap) (v : value) : Prop :=
  match v with
  | VRef l => l < length h
  | _ => True
  end.

(** A store as Python builds them: the keys of a dictionary are pairwise
    different and no object refers to a location outside the store. *)
Definition wf_obj (h : heap) (o : obj) : Prop :=
  match o with
  | ODict items =>
      NoDup (map fst items) /\ Forall (fun kv => closed_value h (snd kv)) items
  | OList elems => Forall (closed_value h) elems
  end.

Definition wf_store (h : heap) : Prop :=
  forall l o, h !! l = Some o -> wf_obj h o.

(** The projector assigns the entry [key: v] to a property: [v] is neither
    a nested dictionary nor a list under [Triggers] or [Actions]. *)
Definition assigned (h : heap) (key : string) (v : value) : Prop :=
  isinstance_dict h v = false
  /\ isinstance_list h v && key_in key ["Triggers"; "Actions"] = false.

(** [leaf_in h items p v]: from a dictionary with the entries [items], the
    keys [p] lead through nested dictionaries to the assigned entry [v]. *)
Inductive leaf_in (h : heap) : list (string * value) -> list string -> value -> Prop :=
| leaf_here items key v :
    dict_get key items = Some v ->
    assigned h key v ->
    leaf_in h items [key] v
| leaf_below items key d items' p v :
    dict_get key items = Some d ->
    as_dict h d = Some items' ->
    leaf_in h items' p v ->
    leaf_in h items (key :: p) v.

Definition leaf_at (h : heap) (d : value) (p : list string) (v : value) : Prop :=
  exists items, as_dict h d = Some items /\ leaf_in h items p v.

(** The entries of the user layer that [build] projects: all but those
    under the key [Path]. *)
Definition user_leaf (h : heap) (user : value) (p : list string) (v : value)
  : Prop :=
  leaf_at h user p v /\ head p <> Some "Path".

(** The property of the task definition the keys [p] lead to. *)
Definition prop_at (c : comobj) (p : list string) : option value :=
  props c !! map Attr p.

(** Only properties below [task] differ between [s] and [s']. *)
Definition confined (task : list seg) (s s' : pystate) : Prop :=
  forall q, ~ task `prefix_of` q ->
            props (py_task s') !! q = props (py_task s) !! q.

(** No property reached from [task] by attribute names alone differs. *)
Definition same_attrs (task : list seg) (s s' : pystate) : Prop :=
  forall p, props (py_task s') !! (task ++ map Attr p)
            = props (py_task s) !! (task ++ map Attr p).

Definition keeps_wf (s s' : pystate) : Prop :=
  wf_store (py_heap s) -> wf_store (py_heap s').

(** The bodies of the two loops of [set_task_attributes], named for the
    proofs; [set_task_attributes_unfold] states that they are the bodies. *)
Definition element_step (depth : nat) (collection : list seg) (key : string)
    (item : value) : M pystate unit :=
  h <~ get_heap ;
  type <~ lift (getitem h item "Type") ;
  code <~ lift (mapping_get (if String.eqb key "Triggers"
                             then TRIGGER_TYPES else ACTION_TYPES) type) ;
  collection_item <~ Create collection code ;
  filtered <~ filter_keys item ["Type"] ;
  set_task_attributes depth collection_item filtered.

Definition item_step (depth : nat) (task : list seg) (kv : string * value)
  : M pystate unit :=
  h <~ get_heap ;
  if isinstance_dict h (snd kv) then
    set_task_attributes depth (getattr task (fst kv)) (snd kv)
  else if isinstance_list h (snd kv) && key_in (fst kv) ["Triggers"; "Actions"] then
    for_each (default [] (as_list h (snd kv)))
             (element_step depth (getattr task (fst kv)) (fst kv))
  else
    v <~ lift (parse_value h (fst kv) (snd kv)) ;
    setattr task (fst kv) v.

(** What a successful projection of the entries [items] onto the object
    [task] achieves: every assigned entry is on its property, resolved, and
    no other property reached by attribute names has changed. *)
Definition projected (task : list seg) (h : heap) (items : list (string * value))
    (s s' : pystate) : Prop :=
  (forall p v, leaf_in h items p v ->
     exists r, parse_value h (List.last p "") v = Ok r
               /\ props (py_task s') !! (task ++ map Attr p) = Some r)
  /\ (forall p, ~ (exists v, leaf_in h items p v) ->
        props (py_task s') !! (task ++ map Attr p)
        = props (py_task s) !! (task ++ map Attr p)).

(** ** Example configurations *)

(** Defaults (object 1) with a [Settings] block, and a user configuration
    (object 6) that overrides [Settings.ExecutionTimeLimit] and adds a
    trigger. *)
Definition example_store : heap :=
  [ODict [("ExecutionTimeLimit", VStr "P1D"); ("Enabled", VBool true)];
   ODict [("Settings", VRef 0); ("Principal", VRef 2)];
   ODict [("LogonType", VStr "S4U")];
   ODict [("ExecutionTimeLimit", VStr "PT1H")];
   ODict [("Type", VStr "DAILY"); ("DaysInterval", VInt 1)];
   OList [VRef 4];
   ODict [("Path", VStr "foo/bar"); ("Settings", VRef 3); ("Triggers", VRef 5)]].

(** Defaults (object 2) and a user configuration (object 5) that both list
    an action. *)
Definition store_with_default_action : heap :=
  [ODict [("Type", VStr "SHOW_MESSAGE"); ("Title", VStr "hello")];
   OList [VRef 0];
   ODict [("Actions", VRef 1)];
   ODict [("Type", VStr "EXEC"); ("Path", VStr "backup.exe")];
   OList [VRef 3];
   ODict [("Path", VStr "\jobs\backup"); ("Actions", VRef 4)]].

(** The claim of C8 at a top-level key bound in both layers to something
    other than a nested dictionary: the built task holds the user's value
    for it, that is the resolved value on the property or, for a list under
    [Triggers] or [Actions], one element per element of the user's list. *)
Definition user_layer_wins (h : heap) (task_defaults task_attributes : value)
    (t : Task) (key : string) : Prop :=
  forall vd vu,
    getitem h task_defaults key = Ok vd ->
    getitem h task_attributes key = Ok vu ->
    key <> "Path" ->
    isinstance_dict h vu = false ->
    if isinstance_list h vu && key_in key ["Triggers"; "Actions"]
    then exists codes, colls (definition t) !! [Attr key] = Some codes
                       /\ length codes = length (default [] (as_list h vu))
    else exists r, parse_value h key vu = Ok r
                   /\ prop_at (definition t) [key] = Some r.

(** The task built from the example, or a placeholder should the build
    raise (it does not). *)
Definition example_task : Task :=
  match snd (build 5 (VRef 1) (VRef 6) example_store) with
  | Ok t => t
  | Raise _ => task_at ""
  end.

(** * More of the module *)

(** ** Bit flags, once more *)

(** What [flag_value] can resolve against [mapping]: a name of the table, an
    integer, a boolean. *)
Definition resolvable (mapping : table) (x : value) : bool :=
  match x with
  | VStr s => match dict_get s mapping with Some _ => true | None => false end
  | VInt _ | VBool _ => true
  | _ => false
  end.

(** The values of [t] are the bits [2^i], [2^(i+1)], ... in this order, as
    in the day-of-week, day-of-month and month-of-year tables. *)
Fixpoint bits_from (i : nat) (t : table) : bool :=
  match t with
  | [] => true
  | (_, n) :: t' => Z.eqb n (2 ^ Z.of_nat i) && bits_from (S i) t'
  end.

(** ** The default author *)

(** [default_author()], with the process environment and the login name
    that [os.getlogin()] returns made explicit. *)
Definition default_author (environ : list (string * string)) (getlogin : string)
  : outcome string :=
  match dict_get "USERDOMAIN" environ with
  | None => Raise (KeyError "USERDOMAIN")
  | Some domain =>
      let author := getlogin in
      Ok (if String.eqb domain EmptyString then author
          else (domain ++ String sep author)%string)
  end.

(** ** Where the projector writes, collections included *)

(** [q] is an object strictly below [task]. *)
Definition below (task q : list seg) : Prop :=
  exists k ext, q = task ++ k :: ext.

(** Properties and collections differ only strictly below [task]. *)
Definition only_below (task : list seg) (s s' : pystate) : Prop :=
  forall q, ~ below task q ->
            props (py_task s') !! q = props (py_task s) !! q
            /\ colls (py_task s') !! q = colls (py_task s) !! q.

(** Properties and collections differ only at [task] and below. *)
Definition within (task : list seg) (s s' : pystate) : Prop :=
  forall q, ~ task `prefix_of` q ->
            props (py_task s') !! q = props (py_task s) !! q
            /\ colls (py_task s') !! q = colls (py_task s) !! q.

(** The collection [c] is the same in [s] and [s']. *)
Definition same_collection (c : list seg) (s s' : pystate) : Prop :=
  colls (py_task s') !! c = colls (py_task s) !! c.

(** The type codes the elements of a list under [key] are created with:
    the [Type] of each, through the table of trigger types ([Triggers]) or
    of action types. *)
Fixpoint type_codes (h : heap) (key : string) (elems : list value)
  : outcome (list value) :=
  match elems with
  | [] => Ok []
  | item :: rest =>
      obind (getitem h item "Type") (fun type =>
      obind (mapping_get (if String.eqb key "Triggers"
                          then TRIGGER_TYPES else ACTION_TYPES) type) (fun code =>
      obind (type_codes h key rest) (fun codes => Ok (code :: codes))))
  end.

(** ** More of the scheduler class *)

Section Service_probes.

Variable fault : list call -> call -> option Z.

(** [try: getFolder; return True / except com_error: return False] *)
Definition folder_exists (p : Path) : M world bool :=
  fun w =>
    match native_GetFolder fault (str p) w with
    | (w', Ok _) => (w', Ok true)
    | (w', Raise (com_error _)) => (w', Ok false)
    | (w', Raise e) => (w', Raise e)
    end.

End Service_probes.

(** The tasks of the service once each task of [ts] has been registered,
    in list order: a later task of the same path replaces an earlier one. *)
Definition registered (ts : list Task) (m : gmap string comobj)
  : gmap string comobj :=
  fold_left (fun m t => <[str (path t) := definition t]> m) ts m.

(** [order] visits no element twice. *)
Definition visits_once (order : gset Path -> list Path) : Prop :=
  forall X, NoDup (order X).

(** A value that can be a dictionary key: anything but a list or a
    dictionary. *)
Definition hashable (v : value) : Prop :=
  match v with VRef _ => False | _ => True end.

(** * Properties *)

(** ** Bit-flag resolution *)

Lemma or_all_cons mapping x li :
  or_all mapping (x :: li) = Z.lor (flag_code mapping x) (or_all mapping li).
Proof. reflexivity. Qed.

Lemma reduce_or_known mapping li :
  Forall (known_flag mapping) li ->
  forall a, reduce_or mapping a li = Ok (Z.lor a (or_all mapping li)).
Proof.
  induction 1 as [|x li (s & n & -> & Hs) _ IH]; intros a.
  - cbn. by rewrite Z.lor_0_r.
  - rewrite or_all_cons. cbn [reduce_or mapping_get flag_code].
    rewrite Hs. cbn [obind int_or default from_option]. rewrite IH.
    by rewrite Z.lor_assoc.
Qed.

Lemma or_all_perm mapping li li' :
  Permutation li li' -> or_all mapping li = or_all mapping li'.
Proof.
  induction 1 as [|x l l' _ IH|x y l|l1 l2 l3 _ IH1 _ IH2];
    rewrite ?or_all_cons.
  - reflexivity.
  - by rewrite IH.
  - rewrite !Z.lor_assoc. f_equal. apply Z.lor_comm.
  - congruence.
Qed.

Lemma or_all_absorb mapping x li :
  In x li -> Z.lor (flag_code mapping x) (or_all mapping li) = or_all mapping li.
Proof.
  induction li as [|y li IH]; [intros []|].
  rewrite or_all_cons. intros [->|Hin].
  - by rewrite Z.lor_assoc, Z.lor_diag.
  - rewrite Z.lor_assoc, (Z.lor_comm _ (flag_code mapping y)), <- Z.lor_assoc.
    by rewrite IH.
Qed.

(** C3, as stated, fails: the integer [5] is no key of the day-of-month
    table (its keys are the texts "1" to "31" and "Last"), so it enters the
    mask as the raw bits [0x5], and the result is not [0x10 | 0x80000000]. *)
Lemma days_of_month_5_Last_is_not_0x80000010 :
  flag_value [VInt 5; VStr "Last"] DAYSOFMONTH
    <> Ok (Z.lor 0x10 0x80000000)
  /\ parse_value [OList [VInt 5; VStr "Last"]] "DaysOfMonth" (VRef 0)
    <> Ok (VInt 0x80000010).
Proof. split; vm_compute; discriminate. Qed.

(** C3, amended: resolving the list [[5, "Last"]] for [DaysOfMonth] yields
    [0x5 | 0x80000000 = 0x80000005], the integer 5 passing through as raw
    bits; it is the text "5" that names the fifth day, and [["5", "Last"]]
    yields [0x10 | 0x80000000 = 0x80000010]. *)
Theorem days_of_month_5_Last (h : heap) (l l' : loc) :
  h !! l = Some (OList [VInt 5; VStr "Last"]) ->
  h !! l' = Some (OList [VStr "5"; VStr "Last"]) ->
  parse_value h "DaysOfMonth" (VRef l) = Ok (VInt (Z.lor 0x5 0x80000000))
  /\ Z.lor 0x5 0x80000000 = 0x80000005%Z
  /\ parse_value h "DaysOfMonth" (VRef l') = Ok (VInt (Z.lor 0x10 0x80000000))
  /\ Z.lor 0x10 0x80000000 = 0x80000010%Z.
Proof.
  intros Hl Hl'. unfold parse_value, as_list. rewrite Hl, Hl'.
  repeat split; reflexivity.
Qed.

Lemma days_of_month_5_Last_witness :
  parse_value [OList [VInt 5; VStr "Last"]; OList [VStr "5"; VStr "Last"]]
              "DaysOfMonth" (VRef 0) = Ok (VInt 0x80000005).
Proof.
  exact (proj1 (days_of_month_5_Last
    [OList [VInt 5; VStr "Last"]; OList [VStr "5"; VStr "Last"]] 0 1
    eq_refl eq_refl)).
Defined.

(** C4: bit-flag resolution is the bitwise OR of the listed flags' values;
    on lists of known flag names it gives the same mask for every
    permutation of the list, and listing an element once more changes
    nothing.  Monday and Friday give [0x22] in either order, Monday twice
    gives [0x2]. *)
Theorem flag_value_order_independent_idempotent (mapping : table)
    (li li' : list value) (x : value) :
  Forall (known_flag mapping) li ->
  Permutation li li' ->
  In x li ->
  flag_value li mapping = Ok (or_all mapping li)
  /\ flag_value li' mapping = flag_value li mapping
  /\ flag_value (x :: li) mapping = flag_value li mapping
  /\ flag_value [VStr "Monday"; VStr "Friday"] DAYSOFWEEK = Ok 0x22%Z
  /\ flag_value [VStr "Friday"; VStr "Monday"] DAYSOFWEEK = Ok 0x22%Z
  /\ flag_value [VStr "Monday"; VStr "Monday"] DAYSOFWEEK = Ok 0x2%Z
  /\ flag_value [VStr "Monday"] DAYSOFWEEK = Ok 0x2%Z.
Proof.
  intros Hk Hp Hx.
  assert (Hk' : Forall (known_flag mapping) li').
  { eapply Permutation_Forall; eassumption. }
  assert (Hkx : Forall (known_flag mapping) (x :: li)).
  { constructor; [|assumption].
    rewrite Forall_forall in Hk. apply Hk. by apply list_elem_of_In. }
  unfold flag_value.
  rewrite !reduce_or_known by assumption.
  rewrite !Z.lor_0_l.
  repeat split.
  - by rewrite (or_all_perm _ _ _ Hp).
  - rewrite or_all_cons. by rewrite or_all_absorb.
Qed.

Lemma flag_value_order_independent_idempotent_witness :
  flag_value [VStr "Friday"; VStr "Monday"] DAYSOFWEEK
    = flag_value [VStr "Monday"; VStr "Friday"] DAYSOFWEEK
  /\ flag_value [VStr "Monday"; VStr "Monday"; VStr "Friday"] DAYSOFWEEK
    = flag_value [VStr "Monday"; VStr "Friday"] DAYSOFWEEK.
Proof.
  assert (Hk : Forall (known_flag DAYSOFWEEK) [VStr "Monday"; VStr "Friday"]).
  { repeat constructor.
    - exists "Monday", 0x2%Z. split; reflexivity.
    - exists "Friday", 0x20%Z. split; reflexivity. }
  pose proof (flag_value_order_independent_idempotent DAYSOFWEEK
    [VStr "Monday"; VStr "Friday"] [VStr "Friday"; VStr "Monday"]
    (VStr "Monday") Hk (perm_swap _ _ _) (or_introl eq_refl)) as H.
  split; [exact (proj1 (proj2 H)) | exact (proj1 (proj2 (proj2 H)))].
Defined.

(** ** Enum resolution *)

(** C5: for the attribute [LogonType] the resolver maps "S4U" to 2, and a
    string that is no key of the logon-type table raises [KeyError]; it is
    not passed through. *)
Theorem parse_value_LogonType (h : heap) (s : string) :
  dict_get s LOGON_TYPES = None ->
  parse_value h "LogonType" (VStr "S4U") = Ok (VInt 2)
  /\ parse_value h "LogonType" (VStr s) = Raise (KeyError s)
  /\ parse_value h "LogonType" (VStr s) <> Ok (VStr s).
Proof.
  intros Hs. unfold parse_value.
  change (dict_get "LogonType" BITFLAG_MAPPINGS) with (@None table).
  change (dict_get "LogonType" MAPPINGS) with (Some LOGON_TYPES).
  cbv beta iota. rewrite Hs. repeat split. discriminate.
Qed.

Lemma parse_value_LogonType_witness :
  parse_value [] "LogonType" (VStr "S4U") = Ok (VInt 2)
  /\ parse_value [] "LogonType" (VStr "BATCH") = Raise (KeyError "BATCH")
  /\ parse_value [] "LogonType" (VStr "BATCH") <> Ok (VStr "BATCH").
Proof. exact (parse_value_LogonType [] "BATCH" eq_refl). Defined.

(** ** Path normalisation *)

Lemma replace_removes old new s :
  old <> new -> contains old (replace old new s) = false.
Proof.
  intros Hne. induction s as [|c s IH]; cbn; [reflexivity|].
  rewrite IH, orb_false_r.
  destruct (Ascii.eqb_spec c old) as [->|Hc].
  - apply Ascii.eqb_neq. congruence.
  - by apply Ascii.eqb_neq.
Qed.

Lemma replace_absent old new s :
  contains old s = false -> replace old new s = s.
Proof.
  induction s as [|c s IH]; cbn; [reflexivity|].
  intros [Hc Hs]%orb_false_elim. by rewrite Hc, IH.
Qed.

Lemma startswith_leading s : startswith s sep = true -> 1 <= leading_seps s.
Proof. destruct s as [|c s]; cbn; [discriminate|]. intros ->. lia. Qed.

Lemma not_startswith_leading s : startswith s sep = false -> leading_seps s = 0.
Proof. destruct s as [|c s]; cbn; [reflexivity|]. by intros ->. Qed.


Lemma get_replace old new s i :
  String.get i (replace old new s)
  = option_map (fun c => if Ascii.eqb c old then new else c) (String.get i s).
Proof.
  revert i. induction s as [|c s IH]; intros i; [reflexivity|].
  destruct i as [|i]; [reflexivity|]. apply IH.
Qed.



(** ** Calls to the service *)

Section ServiceFacts.

Variable fault : list call -> call -> option Z.

(** The existence probe raises nothing but COM errors and changes nothing
    but the log. *)
Lemma native_GetTask_result task w :
  exists r, native_GetTask fault task w = (log (GetTask task) w, r)
    /\ (r = Ok task \/ exists hresult, r = Raise (com_error hresult)).
Proof.
  unfold native_GetTask, native.
  destruct (fault (trace w) (GetTask task)) as [hr|]; [eauto|].
  destruct (tasks (log (GetTask task) w) !! task); eauto.
Qed.

Lemma native_CreateFolder_result folder w :
  exists w' r, native_CreateFolder fault folder w = (w', r)
    /\ tasks w' = tasks w
    /\ trace w' = trace w ++ [CreateFolder folder]
    /\ (r = Ok folder \/ exists hresult, r = Raise (com_error hresult)).
Proof.
  unfold native_CreateFolder, native.
  destruct (fault (trace w) (CreateFolder folder)) as [hr|].
  { eexists _, _. split; [reflexivity|]. cbn. eauto. }
  destruct (folder_exists_in _ folder);
    (eexists _, _; split; [reflexivity|]); cbn; eauto.
Qed.

Lemma suppress_CreateFolder folder w :
  suppress_com_error (native_CreateFolder fault folder) w
  = (fst (native_CreateFolder fault folder w), Ok tt).
Proof.
  unfold suppress_com_error.
  destruct (native_CreateFolder_result folder w)
    as (w' & r & -> & _ & _ & [->|[hr ->]]); reflexivity.
Qed.

End ServiceFacts.

(** ** The existence probe *)

(** C9: [task_exists] returns [True] exactly when the probe succeeds and
    [False] for every COM error the probe raises, whatever its code; it
    never raises. *)
Theorem task_exists_never_raises (fault : list call -> call -> option Z)
    (p : Path) (w : world) (hresult : Z) :
  fault (trace w) (GetTask (str p)) = Some hresult ->
  (forall fault' w',
     task_exists fault' p w'
     = (fst (native_GetTask fault' (str p) w'),
        Ok (match snd (native_GetTask fault' (str p) w') with
            | Ok _ => true
            | Raise _ => false
            end)))
  /\ snd (native_GetTask fault (str p) w) = Raise (com_error hresult)
  /\ snd (task_exists fault p w) = Ok false.
Proof.
  intros Hf. split; [|split].
  - intros fault' w'. unfold task_exists.
    destruct (native_GetTask_result fault' (str p) w')
      as (r & -> & [->|[hr ->]]); reflexivity.
  - unfold native_GetTask, native. by rewrite Hf.
  - unfold task_exists, native_GetTask, native. by rewrite Hf.
Qed.

Lemma task_exists_never_raises_witness :
  snd (task_exists deny_task_lookup (Path_of "\foo\A") world_foo_A_B) = Ok false.
Proof.
  exact (proj2 (proj2 (task_exists_never_raises deny_task_lookup
    (Path_of "\foo\A") world_foo_A_B E_ACCESSDENIED eq_refl))).
Defined.

(** ** Ensuring the folder *)

(** C7, as stated, fails: when the service denies the creation of a folder
    that exists, [register] goes on and registers the task. *)
Lemma register_swallows_access_denied :
  ~ creation_failure_propagates deny_folder_creation (task_at "foo/C")
      world_foo_A_B.
Proof.
  intros H.
  specialize (H E_ACCESSDENIED (VStr "S4U") None None (VStr "CREATE")
                eq_refl ltac:(discriminate)).
  vm_compute in H. discriminate.
Qed.

(** C7, amended: during the ensure-folder step of [register] every COM
    error of the folder creation is tolerated, whatever its cause; the
    folder is then fetched in the state the creation attempt left, and it is
    the failure of that fetch that reaches the caller. *)
Theorem ensure_folder_tolerates_every_com_error
    (fault : list call -> call -> option Z) (task : Task) (w : world)
    (hresult : Z) (logonType : value) (userId password : option string)
    (creation_flag : value) :
  let folder := parent (path task) in
  let w1 := fst (native_CreateFolder fault (str folder) w) in
  snd (native_GetFolder fault (str folder) w1) = Raise (com_error hresult) ->
  (forall fault' p w',
     _get_and_create_folder fault' p w'
     = native_GetFolder fault' (str p)
         (fst (native_CreateFolder fault' (str p) w')))
  /\ snd (register fault task logonType userId password creation_flag w)
     = Raise (com_error hresult).
Proof.
  intros folder w1 Hget.
  assert (Hens : forall fault' p w',
     _get_and_create_folder fault' p w'
     = native_GetFolder fault' (str p)
         (fst (native_CreateFolder fault' (str p) w'))).
  { intros fault' p w'. unfold _get_and_create_folder, bind.
    by rewrite suppress_CreateFolder. }
  split; [exact Hens|].
  unfold register, bind. rewrite Hens. fold folder. fold w1.
  destruct (native_GetFolder fault (str folder) w1) as [w2 r].
  cbn in Hget. by subst r.
Qed.

Lemma ensure_folder_tolerates_every_com_error_witness :
  snd (register deny_folder_creation (task_at "bar/C") (VStr "S4U") None None
         (VStr "CREATE") world_foo_A_B)
  = Raise (com_error ERROR_FILE_NOT_FOUND).
Proof.
  exact (proj2 (ensure_folder_tolerates_every_com_error deny_folder_creation
    (task_at "bar/C") world_foo_A_B ERROR_FILE_NOT_FOUND (VStr "S4U") None None
    (VStr "CREATE") eq_refl)).
Defined.

(** ** Validation in [sync] *)

Lemma two_parents_size (tasks : list Task) (t1 t2 : Task) :
  In t1 tasks -> In t2 tasks -> parent (path t1) <> parent (path t2) ->
  1 < size (list_to_set (map (fun task => parent (path task)) tasks) : gset Path).
Proof.
  intros H1 H2 Hne.
  set (X := list_to_set _ : gset Path).
  assert (Hsub : ({[parent (path t1)]} ∪ {[parent (path t2)]} : gset Path) ⊆ X).
  { intros x. rewrite elem_of_union, !elem_of_singleton. unfold X.
    rewrite elem_of_list_to_set, list_elem_of_In, in_map_iff.
    intros [->| ->]; eauto. }
  apply subseteq_size in Hsub.
  rewrite size_union, !size_singleton in Hsub by set_solver. lia.
Qed.

Lemma one_parent_size (tasks : list Task) (folder : Path) :
  (forall t, In t tasks -> parent (path t) = folder) ->
  ~ 1 < size (list_to_set (map (fun task => parent (path task)) tasks) : gset Path).
Proof.
  intros Hall.
  set (X := list_to_set _ : gset Path).
  assert (Hsub : X ⊆ {[folder]}).
  { intros x. unfold X.
    rewrite elem_of_list_to_set, list_elem_of_In, in_map_iff, elem_of_singleton.
    intros (t & <- & Ht). by apply Hall. }
  apply subseteq_size in Hsub. rewrite size_singleton in Hsub. lia.
Qed.



(** ** Paths: parent and name *)

Example parent_name_of_task_path :
  parent (task_path "foo/bar") = Path_of "\foo"
  /\ name (task_path "foo/bar") = "bar"
  /\ parent (task_path "bar") = root
  /\ parent root = root.
Proof. repeat split. Qed.

Lemma rsplit_Some s pre nm :
  rsplit s = Some (pre, nm) -> s = (pre ++ String sep nm)%string.
Proof.
  revert pre nm. induction s as [|c s IH]; intros pre nm; cbn; [discriminate|].
  destruct (rsplit s) as [[pre' nm']|].
  - intros [= <- <-]. specialize (IH _ _ eq_refl). rewrite IH at 1.
    reflexivity.
  - destruct (Ascii.eqb_spec c sep) as [->|]; [|discriminate].
    by intros [= <- <-].
Qed.

Lemma rsplit_absolute s :
  startswith s sep = true -> exists pre nm, rsplit s = Some (pre, nm).
Proof.
  destruct s as [|c s]; cbn; [discriminate|]. intros ->.
  destruct (rsplit s) as [[pre nm]|]; eauto.
Qed.

Lemma join_parent_name (p : Path) :
  absolute p -> parent p <> root -> join (str (parent p)) (name p) = str p.
Proof.
  intros Habs Hnr. destruct (rsplit_absolute _ Habs) as (pre & nm & Hsplit).
  unfold parent, name in *. rewrite Hsplit in *.
  apply rsplit_Some in Hsplit. rewrite Hsplit.
  destruct pre as [|c pre]; [done|]. cbn [str]. unfold join.
  destruct (String.eqb_spec (String c pre) (str root)) as [Heq|_]; [|done].
  destruct Hnr. unfold root. f_equal. exact Heq.
Qed.

(** ** The calls of [sync] *)

Lemma for_each_cons {S A} (x : A) (l : list A) (body : A -> M S unit) (s : S) :
  for_each (x :: l) body s
  = match body x s with
    | (s', Ok _) => for_each l body s'
    | (s', Raise e) => (s', Raise e)
    end.
Proof. reflexivity. Qed.

Lemma registers_before_deletes_split (pre post : list call) :
  Forall (fun c => is_delete c = false) pre ->
  Forall (fun c => is_register c = false) post ->
  registers_before_deletes (pre ++ post).
Proof.
  intros Hpre Hpost i j c d Hi Hj Hc Hd.
  rewrite Forall_forall in Hpre, Hpost.
  destruct (decide (j < length pre)) as [Hlt|Hge].
  { rewrite lookup_app_l in Hj by done.
    apply list_elem_of_lookup_2 in Hj. apply Hpre in Hj. congruence. }
  destruct (decide (i < length pre)) as [Hlt|Hge']; [lia|].
  rewrite lookup_app_r in Hi by lia.
  apply list_elem_of_lookup_2 in Hi. apply Hpost in Hi. congruence.
Qed.

Section SyncFacts.

Variable fault : list call -> call -> option Z.

Lemma native_GetFolder_result folder w :
  exists r, native_GetFolder fault folder w = (log (GetFolder folder) w, r)
    /\ (r = Ok folder \/ exists hresult, r = Raise (com_error hresult)).
Proof.
  unfold native_GetFolder, native.
  destruct (fault (trace w) (GetFolder folder)) as [hr|]; [eauto|].
  destruct (folder_exists_in _ folder); eauto.
Qed.

Lemma native_Register_Ok folder nm def flags uid pw logon w w' :
  Z.testbit flags 0 = false ->
  native_RegisterTaskDefinition fault folder nm def flags uid pw logon w
    = (w', Ok tt) ->
  tasks w' = <[join folder nm := def]> (tasks w)
  /\ trace w' = trace w ++ [RegisterTaskDefinition folder nm def flags uid pw logon].
Proof.
  intros Hbit. unfold native_RegisterTaskDefinition, native.
  destruct (fault (trace w) _) as [hr|]; [discriminate|].
  rewrite Hbit. cbn [tasks log].
  destruct (tasks w !! join folder nm);
    [destruct (Z.testbit flags 2)|destruct (Z.testbit flags 1)];
    intros [= <-]; done.
Qed.

Lemma native_DeleteTask_Ok task w w' :
  native_DeleteTask fault task w = (w', Ok tt) ->
  tasks w' = delete task (tasks w) /\ trace w' = trace w ++ [DeleteTask task].
Proof.
  unfold native_DeleteTask, native.
  destruct (fault (trace w) _) as [hr|]; [discriminate|]. cbn [tasks log].
  destruct (tasks w !! task); intros [= <-]; done.
Qed.

Lemma task_exists_result p w :
  exists found, task_exists fault p w = (log (GetTask (str p)) w, Ok found).
Proof.
  unfold task_exists.
  destruct (native_GetTask_result fault (str p) w)
    as (r & -> & [->|[hr ->]]); eauto.
Qed.

Lemma register_Ok task logon uid pw (found : bool) w w' :
  register fault task logon uid pw (VStr (if found then "UPDATE" else "CREATE")) w
    = (w', Ok tt) ->
  tasks w' = <[join (str (parent (path task))) (name (path task))
               := definition task]> (tasks w)
  /\ exists flags logon',
       trace w' = trace w ++
         [CreateFolder (str (parent (path task)));
          GetFolder (str (parent (path task)));
          RegisterTaskDefinition (str (parent (path task))) (name (path task))
            (definition task) flags uid pw logon'].
Proof.
  unfold register, _get_and_create_folder, bind.
  rewrite suppress_CreateFolder.
  destruct (native_CreateFolder_result fault (str (parent (path task))) w)
    as (w1 & r1 & -> & Ht1 & Htr1 & _). cbn [fst].
  destruct (native_GetFolder_result (str (parent (path task))) w1)
    as (r2 & -> & [->|[hr ->]]); [|discriminate].
  unfold lift.
  assert (Hflags : exists flags,
    flag_value [VStr (if found then "UPDATE" else "CREATE")] TASK_CREATION_FLAGS
      = Ok flags /\ Z.testbit flags 0 = false).
  { destruct found; eexists; split; reflexivity. }
  destruct Hflags as (flags & -> & Hbit).
  destruct (mapping_get LOGON_TYPES logon) as [logon'|e]; [|discriminate].
  intros Hreg. apply native_Register_Ok in Hreg as [Ht Htr]; [|done].
  split.
  - rewrite Ht. cbn [tasks log]. by rewrite Ht1.
  - exists flags, logon'. rewrite Htr. cbn [trace log]. rewrite Htr1.
    by rewrite <- !app_assoc.
Qed.

(** The creation/update pass: every task of the list is registered when
    it ends, nothing was removed, a registration was issued for every task
    and no deletion was issued. *)
Lemma register_pass logon uid pw (ts : list Task) :
  forall w w',
  for_each ts (fun task =>
      found <~ task_exists fault (path task) ;
      register fault task logon uid pw
               (VStr (if found then "UPDATE" else "CREATE"))) w = (w', Ok tt) ->
  (forall t, In t ts -> absolute (path t) /\ parent (path t) <> root) ->
  dom (tasks w) ⊆ dom (tasks w')
  /\ (forall t, In t ts -> str (path t) ∈ dom (tasks w'))
  /\ exists calls, trace w' = trace w ++ calls
       /\ Forall (fun c => is_delete c = false) calls
       /\ forall t, In t ts -> exists flags logon',
            In (RegisterTaskDefinition (str (parent (path t))) (name (path t))
                  (definition t) flags uid pw logon') calls.
Proof.
  induction ts as [|t ts IH]; intros w w' Hrun Hwf.
  - injection Hrun as <-. split; [done|]. split; [intros t []|].
    exists []. rewrite app_nil_r. split; [done|]. split; [done|intros t []].
  - rewrite for_each_cons in Hrun. unfold bind at 1 in Hrun.
    destruct (task_exists_result (path t) w) as [found Hex].
    rewrite Hex in Hrun.
    destruct (register _ _ _ _ _ _ _) as [w1 [[]|e]] eqn:Hreg; [|discriminate].
    apply register_Ok in Hreg as (Ht & flags & logon' & Htr).
    destruct (Hwf t (or_introl eq_refl)) as [Habs Hnr].
    rewrite join_parent_name in Ht by done.
    cbn [tasks trace log] in Ht, Htr.
    apply IH in Hrun as (Hsub & Hin & calls & Hcalls & Hnd & Hregs);
      [|intros t' Ht'; apply Hwf; by right].
    assert (Hsub1 : dom (tasks w) ⊆ dom (tasks w1)).
    { rewrite Ht, dom_insert_L. apply union_subseteq_r. }
    split; [by transitivity (dom (tasks w1))|]. split.
    + intros t' [<-|Ht']; [|by apply Hin].
      apply Hsub. rewrite Ht, dom_insert_L.
      apply elem_of_union. left. by apply elem_of_singleton.
    + eexists. split; [|split].
      * rewrite Hcalls, Htr. rewrite <- !app_assoc. reflexivity.
      * repeat constructor. exact Hnd.
      * intros t' [<-|Ht'].
        -- exists flags, logon'. cbn. tauto.
        -- destruct (Hregs t' Ht') as (flags' & logon'' & Hin').
           exists flags', logon''. cbn. tauto.
Qed.

Lemma get_tasks_Ok folder w w' live :
  get_tasks fault folder w = (w', Ok live) ->
  tasks w' = tasks w
  /\ live = tasks_of w (str folder)
  /\ trace w' = trace w ++ [GetFolder (str folder); GetTasks (str folder)].
Proof.
  unfold get_tasks, bind.
  destruct (native_GetFolder_result (str folder) w)
    as (r & -> & [->|[hr ->]]); [|discriminate].
  unfold native_GetTasks, native.
  destruct (fault _ _) as [hr|]; [discriminate|].
  intros [= <- <-]. cbn. by rewrite <- app_assoc.
Qed.

(** The suppression pass: exactly the listed tasks are removed, and only
    deletions are issued. *)
Lemma delete_pass (ds : list Path) :
  forall w w',
  for_each ds (delete_task fault) w = (w', Ok tt) ->
  dom (tasks w') = dom (tasks w) ∖ list_to_set (map str ds)
  /\ trace w' = trace w ++ map (fun p => DeleteTask (str p)) ds.
Proof.
  induction ds as [|d ds IH]; intros w w' Hrun.
  - injection Hrun as <-. cbn. rewrite app_nil_r.
    by rewrite difference_empty_L.
  - rewrite for_each_cons in Hrun.
    destruct (delete_task fault d w) as [w1 [[]|e]] eqn:Hdel; [|discriminate].
    apply native_DeleteTask_Ok in Hdel as [Ht Htr].
    apply IH in Hrun as [Hdom Htrace]. split.
    + rewrite Hdom, Ht, dom_delete_L. cbn.
      by rewrite difference_difference_l_L.
    + rewrite Htrace, Htr. cbn. by rewrite <- app_assoc.
Qed.

End SyncFacts.

Lemma elem_of_live_tasks (w : world) (folder p : Path) :
  p ∈ live_tasks w folder <-> str p ∈ dom (tasks w) /\ parent p = folder.
Proof.
  unfold live_tasks, tasks_of.
  rewrite elem_of_list_to_set, list_elem_of_In, in_map_iff. split.
  - intros (s & <- & Hs). apply filter_In in Hs as [Hs Hb].
    apply bool_decide_eq_true in Hb. apply list_elem_of_In, elem_of_elements in Hs.
    split; [done|]. rewrite Hb. by destruct folder.
  - intros [Hdom Hpar]. exists (str p). split; [by destruct p|].
    apply filter_In. split.
    + by apply list_elem_of_In, elem_of_elements.
    + apply bool_decide_eq_true. destruct p, folder. cbn in *. exact Hpar.
Qed.

(** ** Reconciliation *)


(** The folder holds [A] and [B], the list is [B], [C]: [B] is updated
    (flag 4), [C] is created (flag 2), then [A] is deleted. *)
Example sync_A_B_to_B_C :
  trace (fst (sync no_fault elements [task_at "foo/B"; task_at "foo/C"]
                   (VStr "S4U") None None world_foo_A_B))
  = [GetTask "\foo\B"; CreateFolder "\foo"; GetFolder "\foo";
     RegisterTaskDefinition "\foo" "B" NewTask 4 None None (VInt 2);
     GetTask "\foo\C"; CreateFolder "\foo"; GetFolder "\foo";
     RegisterTaskDefinition "\foo" "C" NewTask 2 None None (VInt 2);
     GetFolder "\foo"; GetTasks "\foo"; DeleteTask "\foo\A"].
Proof. by vm_compute. Qed.


(** ** Invariants of stateful computations *)

Section Preserves.

Context {S : Type} (R : S -> S -> Prop) `{!PreOrder R}.

Lemma preserves_ret {A} (a : A) : preserves R (ret a).
Proof. intros s s' r [= <- _]. reflexivity. Qed.

Lemma preserves_raise {A} (e : exn) : preserves R (@raise S A e).
Proof. intros s s' r [= <- _]. reflexivity. Qed.

Lemma preserves_lift {A} (x : outcome A) : preserves R (@lift S A x).
Proof. intros s s' r [= <- _]. reflexivity. Qed.

Lemma preserves_bind {A B} (m : M S A) (f : A -> M S B) :
  preserves R m -> (forall a, preserves R (f a)) -> preserves R (bind m f).
Proof.
  intros Hm Hf s s' r. unfold bind.
  destruct (m s) as [s1 [a|e]] eqn:Hms.
  - intros Hfa. transitivity s1; [eapply Hm|eapply Hf]; eassumption.
  - intros [= <- _]. eapply Hm; eassumption.
Qed.

Lemma preserves_for_each {A} (l : list A) (body : A -> M S unit) :
  (forall x, In x l -> preserves R (body x)) -> preserves R (for_each l body).
Proof.
  induction l as [|x l IH]; intros Hbody; cbn [for_each].
  - apply preserves_ret.
  - apply preserves_bind; [apply Hbody; by left|].
    intros _. apply IH. intros y Hy. apply Hbody. by right.
Qed.

(** As [preserves_bind], knowing something of what [m] returns. *)
Lemma preserves_bind_ret {A B} (P : A -> Prop) (m : M S A) (f : A -> M S B) :
  preserves R m ->
  (forall s s' a, m s = (s', Ok a) -> P a) ->
  (forall a, P a -> preserves R (f a)) ->
  preserves R (bind m f).
Proof.
  intros Hm HP Hf s s' r. unfold bind.
  destruct (m s) as [s1 [a|e]] eqn:Hms.
  - intros Hfa. transitivity s1; [eapply Hm; eassumption|].
    eapply Hf; [eapply HP|]; eassumption.
  - intros [= <- _]. eapply Hm; eassumption.
Qed.

End Preserves.

(** ** The attribute projector *)

Lemma for_each_ext {S A} (l : list A) (body body' : A -> M S unit) :
  (forall x s, body x s = body' x s) ->
  forall s, for_each l body s = for_each l body' s.
Proof.
  intros Hext. induction l as [|x l IH]; intros s; cbn [for_each]; [done|].
  unfold bind. rewrite Hext. destruct (body' x s) as [s' [[]|e]]; [apply IH|done].
Qed.

Lemma set_task_attributes_unfold depth task attributes s :
  set_task_attributes (S depth) task attributes s
  = match dict_items (py_heap s) attributes with
    | Ok items => for_each items (item_step depth task) s
    | Raise e => (s, Raise e)
    end.
Proof.
  cbn [set_task_attributes]. unfold bind at 1, get_heap at 1.
  unfold bind at 1, lift at 1.
  destruct (dict_items (py_heap s) attributes) as [items|e]; [|done].
  apply for_each_ext. intros [key v] s1. reflexivity.
Qed.

Lemma Create_handle collection code s s' r :
  Create collection code s = (s', r) ->
  props (py_task s') = props (py_task s)
  /\ py_heap s' = py_heap s
  /\ exists n, r = Ok (collection ++ [Item n]).
Proof. unfold Create, com_Create. intros [= <- <-]. cbn. eauto. Qed.

(** A family of invariants, one per object of the task definition, that
    the elementary steps keep is kept by the projector. *)
Section Projector_invariant.

Variable R : list seg -> pystate -> pystate -> Prop.
Hypothesis R_preorder : forall task, PreOrder (R task).
Hypothesis R_below : forall task ext s s', R (task ++ ext) s s' -> R task s s'.
Hypothesis R_setattr : forall task key v, preserves (R task) (setattr task key v).
Hypothesis R_Create : forall task key code,
  preserves (R task) (Create (getattr task key) code).
Hypothesis R_filter_keys : forall task d keys,
  preserves (R task) (filter_keys d keys).

Lemma R_get_heap task : preserves (R task) get_heap.
Proof. intros s s' r [= <- _]. reflexivity. Qed.

Lemma preserves_below {A} task ext (m : M pystate A) :
  preserves (R (task ++ ext)) m -> preserves (R task) m.
Proof. intros Hm s s' r Hrun. eapply R_below, Hm, Hrun. Qed.

Lemma element_step_preserves depth task key item :
  (forall task' attributes,
     preserves (R task') (set_task_attributes depth task' attributes)) ->
  preserves (R task) (element_step depth (getattr task key) key item).
Proof.
  intros IH. unfold element_step.
  apply preserves_bind; [apply _|apply R_get_heap|]. intros h.
  apply preserves_bind; [apply _|apply preserves_lift; apply _|]. intros ty.
  apply preserves_bind; [apply _|apply preserves_lift; apply _|]. intros code.
  apply (preserves_bind_ret _ (fun a => exists n, a = getattr task key ++ [Item n]));
    [apply R_Create| |].
  { intros s s' a Hc. apply Create_handle in Hc as (_ & _ & n & [= ->]). eauto. }
  intros item' [n ->].
  apply preserves_bind; [apply _|apply R_filter_keys|]. intros filtered.
  unfold getattr. rewrite <- app_assoc.
  apply (preserves_below task ([Attr key] ++ [Item n])), IH.
Qed.

Lemma item_step_preserves depth task kv :
  (forall task' attributes,
     preserves (R task') (set_task_attributes depth task' attributes)) ->
  preserves (R task) (item_step depth task kv).
Proof.
  intros IH. unfold item_step.
  apply preserves_bind; [apply _|apply R_get_heap|]. intros h.
  destruct (isinstance_dict h (snd kv)).
  { apply (preserves_below task [Attr (fst kv)]), IH. }
  destruct (isinstance_list h (snd kv) && key_in (fst kv) ["Triggers"; "Actions"]).
  - apply preserves_for_each; [apply _|]. intros item _.
    by apply element_step_preserves.
  - apply preserves_bind; [apply _|apply preserves_lift; apply _|]. intros v'.
    apply R_setattr.
Qed.

Lemma set_task_attributes_preserves depth :
  forall task attributes,
    preserves (R task) (set_task_attributes depth task attributes).
Proof.
  induction depth as [|depth IH]; intros task attributes.
  - apply preserves_raise; apply _.
  - intros s s' r. rewrite set_task_attributes_unfold.
    destruct (dict_items (py_heap s) attributes) as [items|e].
    + apply preserves_for_each; [apply _|]. intros kv _.
      by apply item_step_preserves.
    + intros [= <- _]. reflexivity.
Qed.

End Projector_invariant.

(** ** The store during a build *)

#[local] Instance store_grows_preorder : PreOrder store_grows.
Proof.
  split.
  - intros s. exists []. by rewrite app_nil_r.
  - intros s1 s2 s3 [n1 H1] [n2 H2]. exists (n1 ++ n2).
    by rewrite H2, H1, app_assoc.
Qed.

Lemma get_heap_grows : preserves store_grows get_heap.
Proof. intros s s' r [= <- _]. reflexivity. Qed.

Lemma setattr_grows task key v : preserves store_grows (setattr task key v).
Proof. intros s s' r [= <- _]. exists []. cbn. by rewrite app_nil_r. Qed.

Lemma Create_grows collection code :
  preserves store_grows (Create collection code).
Proof. intros s s' r [= <- _]. exists []. cbn. by rewrite app_nil_r. Qed.

Lemma filter_keys_new d keys s s' v :
  filter_keys d keys s = (s', Ok v) ->
  exists items,
    as_dict (py_heap s) d = Some items
    /\ v = VRef (length (py_heap s))
    /\ py_heap s'
       = py_heap s ++ [ODict (List.filter (fun kv => negb (key_in (fst kv) keys))
                                          items)]
    /\ py_task s' = py_task s.
Proof.
  unfold filter_keys, dict_items.
  destruct (as_dict (py_heap s) d) as [items|]; [|discriminate].
  cbn. intros [= <- <-]. eauto.
Qed.

Lemma filter_keys_grows d keys : preserves store_grows (filter_keys d keys).
Proof.
  intros s s' r. unfold filter_keys.
  destruct (dict_items (py_heap s) d) as [items|e].
  - cbn. intros [= <- _]. eexists. reflexivity.
  - intros [= <- _]. reflexivity.
Qed.

Lemma set_task_attributes_grows depth task attributes :
  preserves store_grows (set_task_attributes depth task attributes).
Proof.
  apply (set_task_attributes_preserves (fun _ => store_grows)).
  - intros t. apply _.
  - done.
  - intros t. apply setattr_grows.
  - intros t key code. apply Create_grows.
  - intros t. apply filter_keys_grows.
Qed.

(** C10: [build] never mutates its input configuration: whether it returns
    or raises, the dictionary it was given is the same object with the same
    entries, [Path] included, and so is every other object of the store;
    key filtering puts its result in a new dictionary. *)
Theorem build_never_mutates_input (depth : nat)
    (task_defaults task_attributes : value) (h h' : heap) (r : outcome Task)
    (l : loc) (items : list (string * value)) :
  task_attributes = VRef l ->
  h !! l = Some (ODict items) ->
  build depth task_defaults task_attributes h = (h', r) ->
  h' !! l = Some (ODict items)
  /\ (forall l' o, h !! l' = Some o -> h' !! l' = Some o)
  /\ (forall d keys s s' v,
        filter_keys d keys s = (s', Ok v) ->
        v = VRef (length (py_heap s)) /\ py_heap s !! length (py_heap s) = None).
Proof.
  intros -> Hl Hbuild.
  assert (Hgrows : exists new, h' = h ++ new).
  { unfold build in Hbuild.
    destruct (bind get_heap _ _) as [s r'] eqn:Hm in Hbuild.
    injection Hbuild as <- <-.
    assert (Hp : store_grows {| py_heap := h; py_task := NewTask |} s);
      [|exact Hp].
    revert Hm. generalize {| py_heap := h; py_task := NewTask |}.
    intros s0 Hm. revert s0 s r' Hm. change (preserves store_grows
      (h0 <~ get_heap ;
       _ <~ lift (getitem h0 (VRef l) "Path") ;
       run set_task_attributes depth [] task_defaults ;
       filtered <~ filter_keys (VRef l) ["Path"] ;
       run set_task_attributes depth [] filtered ;
       h1 <~ get_heap ;
       p <~ lift (getitem h1 (VRef l) "Path") ;
       tp <~ lift (task_path_of p) ;
       fun s => (s, Ok {| path := tp; definition := py_task s |}))).
    repeat first
      [ apply preserves_bind; [apply _| |intros ?]
      | apply get_heap_grows
      | apply preserves_lift; apply _
      | apply set_task_attributes_grows
      | apply filter_keys_grows ].
    intros s s' r'' [= <- _]. reflexivity. }
  destruct Hgrows as [new ->].
  split; [|split].
  - by apply lookup_app_l_Some.
  - intros l' o Hl'. by apply lookup_app_l_Some.
  - intros d keys s s' v Hf.
    apply filter_keys_new in Hf as (items' & _ & -> & _ & _).
    split; [reflexivity|]. by apply lookup_ge_None.
Qed.

Lemma build_never_mutates_input_witness :
  fst (build 5 (VRef 1) (VRef 6) example_store) !! 6
  = Some (ODict [("Path", VStr "foo/bar"); ("Settings", VRef 3);
                 ("Triggers", VRef 5)]).
Proof.
  exact (proj1 (build_never_mutates_input 5 (VRef 1) (VRef 6) example_store
    (fst (build 5 (VRef 1) (VRef 6) example_store))
    (snd (build 5 (VRef 1) (VRef 6) example_store)) 6 _ eq_refl eq_refl
    (surjective_pairing _))).
Defined.

(** ** Stores that grow *)

Lemma closed_value_ext h new v : closed_value h v -> closed_value (h ++ new) v.
Proof. destruct v; try done. unfold closed_value. rewrite length_app. lia. Qed.

Lemma as_dict_ext h new v :
  closed_value h v -> as_dict (h ++ new) v = as_dict h v.
Proof.
  destruct v; try done. unfold closed_value, as_dict, as_list.
  intros Hl. by rewrite lookup_app_l.
Qed.

Lemma as_list_ext h new v :
  closed_value h v -> as_list (h ++ new) v = as_list h v.
Proof.
  destruct v; try done. unfold closed_value, as_dict, as_list.
  intros Hl. by rewrite lookup_app_l.
Qed.

Lemma as_dict_closed h v items : as_dict h v = Some items -> closed_value h v.
Proof.
  destruct v; try done. unfold as_dict, closed_value.
  destruct (h !! l) eqn:Hl; [|done]. intros _. by eapply lookup_lt_Some.
Qed.

Lemma isinstance_dict_ext h new v :
  closed_value h v -> isinstance_dict (h ++ new) v = isinstance_dict h v.
Proof. intros Hc. unfold isinstance_dict. by rewrite as_dict_ext. Qed.

Lemma isinstance_list_ext h new v :
  closed_value h v -> isinstance_list (h ++ new) v = isinstance_list h v.
Proof. intros Hc. unfold isinstance_list. by rewrite as_list_ext. Qed.

Lemma parse_value_ext h new key v :
  closed_value h v -> parse_value (h ++ new) key v = parse_value h key v.
Proof. intros Hc. unfold parse_value. by rewrite as_list_ext. Qed.

Lemma assigned_ext h new key v :
  closed_value h v -> assigned (h ++ new) key v <-> assigned h key v.
Proof.
  intros Hc. unfold assigned.
  by rewrite isinstance_dict_ext, isinstance_list_ext.
Qed.

Lemma wf_as_dict h d items :
  wf_store h -> as_dict h d = Some items ->
  NoDup (map fst items) /\ Forall (fun kv => closed_value h (snd kv)) items.
Proof.
  intros Hwf. destruct d; try done. unfold as_dict.
  destruct (h !! l) as [[items'|]|] eqn:Hl; try done.
  intros [= <-]. exact (Hwf l _ Hl).
Qed.

Lemma dict_get_In {A} key (items : list (string * A)) v :
  dict_get key items = Some v -> In (key, v) items.
Proof.
  induction items as [|[k x] items IH]; cbn; [done|].
  destruct (String.eqb_spec key k) as [->|_].
  - intros [= ->]. by left.
  - intros H. right. by apply IH.
Qed.

Lemma dict_get_closed h key items v :
  Forall (fun kv => closed_value h (snd kv)) items ->
  dict_get key items = Some v -> closed_value h v.
Proof.
  intros Hall Hget%dict_get_In. rewrite Forall_forall in Hall.
  apply list_elem_of_In, Hall in Hget. exact Hget.
Qed.

Lemma wf_obj_ext h new o : wf_obj h o -> wf_obj (h ++ new) o.
Proof.
  destruct o as [items|elems]; cbn.
  - intros [Hnd Hall]. split; [done|].
    eapply Forall_impl; [exact Hall|]. intros kv. apply closed_value_ext.
  - intros Hall. eapply Forall_impl; [exact Hall|]. intros v.
    apply closed_value_ext.
Qed.

Lemma NoDup_map_fst_filter {A B} (f : A * B -> bool) (items : list (A * B)) :
  NoDup (map fst items) -> NoDup (map fst (List.filter f items)).
Proof.
  induction items as [|kv items IH]; cbn; [done|].
  rewrite !NoDup_cons. intros [Hni Hnd]. destruct (f kv); cbn; [|by apply IH].
  rewrite NoDup_cons. split; [|by apply IH].
  rewrite list_elem_of_In, in_map_iff in *.
  intros (kv' & Hk & Hin%filter_In). apply Hni. exists kv'. tauto.
Qed.

Lemma wf_store_alloc h o : wf_store h -> wf_obj h o -> wf_store (h ++ [o]).
Proof.
  intros Hwf Ho l o' Hl. apply lookup_app_Some in Hl as [Hl|[_ Hl]].
  - apply wf_obj_ext. by eapply Hwf.
  - apply list_lookup_singleton_Some in Hl as [_ <-]. by apply wf_obj_ext.
Qed.

#[local] Instance keeps_wf_preorder : PreOrder keeps_wf.
Proof. split; unfold keeps_wf; [intros s; tauto|intros s1 s2 s3; tauto]. Qed.

Lemma filter_keys_keeps_wf d keys : preserves keeps_wf (filter_keys d keys).
Proof.
  intros s s' [v|e] Hrun Hwf.
  - apply filter_keys_new in Hrun as (items & Hd & _ & -> & _).
    destruct (wf_as_dict _ _ _ Hwf Hd) as [Hnd Hall].
    apply wf_store_alloc; [done|]. split.
    + by apply NoDup_map_fst_filter.
    + apply Forall_forall. intros kv Hkv%list_elem_of_In%filter_In.
      rewrite Forall_forall in Hall. apply Hall, list_elem_of_In. tauto.
  - unfold filter_keys in Hrun.
    destruct (dict_items (py_heap s) d); [by destruct (alloc _ _)|].
    by injection Hrun as <- _.
Qed.

Lemma set_task_attributes_keeps_wf depth task attributes :
  preserves keeps_wf (set_task_attributes depth task attributes).
Proof.
  apply (set_task_attributes_preserves (fun _ => keeps_wf)).
  - intros t. apply _.
  - done.
  - intros t key v s s' r [= <- _] Hwf. exact Hwf.
  - intros t collection code s s' r Hc Hwf.
    apply Create_handle in Hc as (_ & -> & _). exact Hwf.
  - intros t. apply filter_keys_keeps_wf.
Qed.

(** ** Where the projector writes *)

#[local] Instance confined_preorder task : PreOrder (confined task).
Proof.
  split.
  - intros s q _. reflexivity.
  - intros s1 s2 s3 H12 H23 q Hq. by rewrite H23, H12.
Qed.

Lemma set_task_attributes_confined depth task attributes :
  preserves (confined task) (set_task_attributes depth task attributes).
Proof.
  apply (set_task_attributes_preserves confined).
  - apply _.
  - intros t ext s s' Hc q Hq. apply Hc. intros Hpre. apply Hq.
    etransitivity; [|exact Hpre]. by apply prefix_app_r.
  - intros t key v s s' r [= <- _] q Hq. cbn.
    apply lookup_insert_ne. intros <-. apply Hq. by apply prefix_app_r.
  - intros t collection code s s' r Hc q _.
    apply Create_handle in Hc as (-> & _). done.
  - intros t d keys s s' [v|e] Hrun q _.
    + apply filter_keys_new in Hrun as (_ & _ & _ & _ & ->). done.
    + unfold filter_keys in Hrun.
      destruct (dict_items (py_heap s) d); [by destruct (alloc _ _)|].
      by injection Hrun as <- _.
Qed.

#[local] Instance same_attrs_preorder task : PreOrder (same_attrs task).
Proof.
  split.
  - intros s p. reflexivity.
  - intros s1 s2 s3 H12 H23 p. by rewrite H23, H12.
Qed.

Lemma attr_path_prefix task key (p : list string) :
  (task ++ [Attr key]) `prefix_of` (task ++ map Attr p) ->
  exists p', p = key :: p'.
Proof.
  intros [k Hk]. rewrite <- app_assoc in Hk. apply app_inv_head in Hk.
  destruct p as [|key' p']; [done|]. injection Hk as -> _. eauto.
Qed.

Lemma item_path_not_prefix task key n (p : list string) :
  ~ (task ++ [Attr key; Item n]) `prefix_of` (task ++ map Attr p).
Proof.
  intros [k Hk]. rewrite <- app_assoc in Hk. apply app_inv_head in Hk.
  destruct p as [|k1 [|k2 p']]; discriminate.
Qed.

Lemma element_loop_same_attrs depth task key (elems : list value) :
  preserves (same_attrs task)
            (for_each elems (element_step depth (getattr task key) key)).
Proof.
  apply preserves_for_each; [apply _|]. intros item _. unfold element_step.
  apply preserves_bind; [apply _| |intros h].
  { intros s s' r [= <- _]. reflexivity. }
  apply preserves_bind; [apply _|apply preserves_lift; apply _|]. intros ty.
  apply preserves_bind; [apply _|apply preserves_lift; apply _|]. intros code.
  apply (preserves_bind_ret _ (fun a => exists n, a = getattr task key ++ [Item n])).
  - intros s s' r Hc p. apply Create_handle in Hc as (-> & _). done.
  - intros s s' a Hc. apply Create_handle in Hc as (_ & _ & n & [= ->]). eauto.
  - intros item' [n ->].
    apply preserves_bind; [apply _| |intros filtered].
    { intros s s' r Hf p.
      unfold filter_keys in Hf.
      destruct (dict_items (py_heap s) item) as [items|e].
      - destruct (alloc _ _). by injection Hf as <- _.
      - by injection Hf as <- _. }
    intros s s' r Hrun p.
    apply set_task_attributes_confined in Hrun. apply Hrun.
    unfold getattr. rewrite <- app_assoc. apply item_path_not_prefix.
Qed.

(** ** Entries reached through nested dictionaries *)

Lemma leaf_in_head h items p v :
  leaf_in h items p v ->
  exists key p', p = key :: p' /\ In key (map fst items).
Proof.
  intros [items' key v' Hget _|items' key d items'' p' v' Hget _ _];
    exists key; eexists; (split; [reflexivity|]);
    apply dict_get_In in Hget; apply in_map_iff; by eexists (_, _).
Qed.

Lemma leaf_in_nonempty h items p v : leaf_in h items p v -> p <> [].
Proof. by intros []. Qed.

Lemma leaf_in_closed h :
  wf_store h ->
  forall items p v,
    leaf_in h items p v ->
    Forall (fun kv => closed_value h (snd kv)) items -> closed_value h v.
Proof.
  intros Hwf items p v.
  induction 1 as [items key v Hget _|items key d items' p v Hget Hd _ IH];
    intros Hall.
  - by eapply dict_get_closed.
  - apply IH. by eapply wf_as_dict.
Qed.

Lemma leaf_in_ext h new :
  wf_store h ->
  forall items p v,
    Forall (fun kv => closed_value h (snd kv)) items ->
    leaf_in (h ++ new) items p v <-> leaf_in h items p v.
Proof.
  intros Hwf items p v Hall. split.
  - intros Hleaf. revert Hall.
    induction Hleaf as [items key v Hget Has|items key d items' p v Hget Hd _ IH];
      intros Hall.
    + apply leaf_here; [done|].
      eapply assigned_ext; [|exact Has]. by eapply dict_get_closed.
    + assert (Hc : closed_value h d) by (by eapply dict_get_closed).
      rewrite as_dict_ext in Hd by done.
      eapply leaf_below; [done..|]. apply IH. by eapply wf_as_dict.
  - intros Hleaf. revert Hall.
    induction Hleaf as [items key v Hget Has|items key d items' p v Hget Hd _ IH];
      intros Hall.
    + apply leaf_here; [done|].
      apply assigned_ext; [|exact Has]. by eapply dict_get_closed.
    + assert (Hc : closed_value h d) by (by eapply dict_get_closed).
      eapply leaf_below; [done| |].
      * by rewrite as_dict_ext.
      * apply IH. by eapply wf_as_dict.
Qed.

Lemma dict_get_singleton {A} key key' (x y : A) :
  dict_get key [(key', x)] = Some y -> key = key' /\ y = x.
Proof. cbn. destruct (String.eqb_spec key key'); [|done]. by intros [= ->]. Qed.

Lemma dict_get_key {A} key (items : list (string * A)) x :
  dict_get key items = Some x -> In key (map fst items).
Proof.
  intros Hget%dict_get_In. apply in_map_iff. by exists (key, x).
Qed.

Lemma leaf_in_cons h key v rest p v' :
  ~ In key (map fst rest) ->
  leaf_in h ((key, v) :: rest) p v'
  <-> leaf_in h [(key, v)] p v' \/ leaf_in h rest p v'.
Proof.
  intros Hni.
  assert (Hsplit : forall k x,
    dict_get k ((key, v) :: rest) = Some x <->
    dict_get k [(key, v)] = Some x \/ dict_get k rest = Some x).
  { intros k x. cbn. destruct (String.eqb_spec k key) as [->|Hne].
    - split; [tauto|]. intros [|Hr%dict_get_key]; tauto.
    - split; [tauto|]. intros [|]; done. }
  split.
  - intros Hleaf. inversion Hleaf as [? k ? Hget Has|? k d items' p' ? Hget Hd Hl];
      subst; apply Hsplit in Hget as [Hget|Hget].
    + left. by apply leaf_here.
    + right. by apply leaf_here.
    + left. by eapply leaf_below.
    + right. by eapply leaf_below.
  - intros [Hleaf|Hleaf];
      inversion Hleaf as [? k ? Hget Has|? k d items' p' ? Hget Hd Hl]; subst.
    + apply leaf_here; [|done]. apply Hsplit. tauto.
    + eapply leaf_below; [|done..]. apply Hsplit. tauto.
    + apply leaf_here; [|done]. apply Hsplit. tauto.
    + eapply leaf_below; [|done..]. apply Hsplit. tauto.
Qed.

(** ** What a projection achieves *)

Lemma bind_Ok {S A B} (m : M S A) (f : A -> M S B) s s' b :
  bind m f s = (s', Ok b) ->
  exists s1 a, m s = (s1, Ok a) /\ f a s1 = (s', Ok b).
Proof.
  unfold bind. destruct (m s) as [s1 [a|e]]; [eauto|discriminate].
Qed.

Lemma last_cons_nonempty (key : string) (p : list string) :
  p <> [] -> List.last (key :: p) "" = List.last p "".
Proof. by destruct p. Qed.

Lemma attr_path_singleton (key : string) (p : list string) :
  map Attr p = [Attr key] -> p = [key].
Proof. destruct p as [|k [|k' p]]; try done. by intros [= ->]. Qed.

Section Projection_step.

Variable depth : nat.
Hypothesis IH : forall task attributes s s' items,
  wf_store (py_heap s) ->
  as_dict (py_heap s) attributes = Some items ->
  set_task_attributes depth task attributes s = (s', Ok tt) ->
  projected task (py_heap s) items s s'.

Lemma item_step_projects task key v s s' :
  wf_store (py_heap s) ->
  item_step depth task (key, v) s = (s', Ok tt) ->
  projected task (py_heap s) [(key, v)] s s'.
Proof.
  intros Hwf. unfold item_step. cbn [fst snd].
  intros (s0 & h & [= <- <-] & Hrun)%bind_Ok.
  destruct (isinstance_dict (py_heap s) v) eqn:Hisd.
  { (* a nested dictionary *)
    unfold isinstance_dict in Hisd.
    destruct (as_dict (py_heap s) v) as [items'|] eqn:Hd; [|done].
    pose proof (set_task_attributes_confined _ _ _ _ _ _ Hrun) as Hconf.
    apply (IH _ _ _ _ items' Hwf Hd) in Hrun as [HA HB]. split.
    - intros p v' Hleaf.
      inversion Hleaf as [? k ? Hget Has|? k d items'' p' ? Hget Hd' Hl]; subst.
      + apply dict_get_singleton in Hget as [-> ->].
        destruct Has as [Has _]. unfold isinstance_dict in Has.
        by rewrite Hd in Has.
      + apply dict_get_singleton in Hget as [-> ->].
        rewrite Hd in Hd'. injection Hd' as <-.
        destruct (HA _ _ Hl) as (r & Hr & Hp). exists r.
        rewrite last_cons_nonempty by (by eapply leaf_in_nonempty).
        split; [done|]. unfold getattr in Hp.
        by rewrite <- app_assoc in Hp.
    - intros p Hno.
      destruct (decide ((task ++ [Attr key]) `prefix_of` (task ++ map Attr p)))
        as [Hpre|Hnpre]; [|by apply Hconf].
      apply attr_path_prefix in Hpre as [p' ->].
      specialize (HB p'). unfold getattr in HB. rewrite <- app_assoc in HB.
      apply HB. intros [v' Hl]. apply Hno. exists v'.
      eapply leaf_below; [|done..]. cbn. by rewrite String.eqb_refl. }
  destruct (isinstance_list (py_heap s) v && key_in key ["Triggers"; "Actions"])
    eqn:Hisl.
  { (* the elements of a collection *)
    apply element_loop_same_attrs in Hrun. split.
    - intros p v' Hleaf.
      inversion Hleaf as [? k ? Hget Has|? k d items'' p' ? Hget Hd' Hl]; subst;
        apply dict_get_singleton in Hget as [-> ->].
      + destruct Has as [_ Has]. by rewrite Hisl in Has.
      + unfold isinstance_dict in Hisd. by rewrite Hd' in Hisd.
    - intros p _. apply Hrun. }
  (* an assigned entry *)
  apply bind_Ok in Hrun as (s1 & r & Hparse & Hset).
  unfold lift in Hparse. injection Hparse as <- Hparse.
  injection Hset as <-. cbn [py_task com_setattr props]. split.
  - intros p v' Hleaf.
    inversion Hleaf as [? k ? Hget Has|? k d items'' p' ? Hget Hd' Hl]; subst;
      apply dict_get_singleton in Hget as [-> ->].
    + exists r. split; [done|]. apply lookup_insert_eq.
    + unfold isinstance_dict in Hisd. by rewrite Hd' in Hisd.
  - intros p Hno. apply lookup_insert_ne. unfold getattr.
    intros Heq%app_inv_head. symmetry in Heq.
    apply attr_path_singleton in Heq as ->.
    apply Hno. exists v. apply leaf_here.
    + cbn. by rewrite String.eqb_refl.
    + split; done.
Qed.

Lemma item_step_grows task kv : preserves store_grows (item_step depth task kv).
Proof.
  apply (item_step_preserves (fun _ => store_grows)).
  - intros _. apply _.
  - done.
  - intros t. apply setattr_grows.
  - intros t key code. apply Create_grows.
  - intros t. apply filter_keys_grows.
  - intros t. apply set_task_attributes_grows.
Qed.

Lemma item_step_keeps_wf task kv : preserves keeps_wf (item_step depth task kv).
Proof.
  apply (item_step_preserves (fun _ => keeps_wf)).
  - intros _. apply _.
  - done.
  - intros t key v s s' r [= <- _] Hwf. exact Hwf.
  - intros t collection code s s' r Hc Hwf.
    apply Create_handle in Hc as (_ & -> & _). exact Hwf.
  - intros t. apply filter_keys_keeps_wf.
  - intros t. apply set_task_attributes_keeps_wf.
Qed.

Lemma items_loop_projects task (items : list (string * value)) :
  forall s s',
    wf_store (py_heap s) ->
    NoDup (map fst items) ->
    Forall (fun kv => closed_value (py_heap s) (snd kv)) items ->
    for_each items (item_step depth task) s = (s', Ok tt) ->
    projected task (py_heap s) items s s'.
Proof.
  induction items as [|[key v] rest IHrest]; intros s s' Hwf Hnd Hall Hrun.
  - injection Hrun as <-. split.
    + intros p v Hleaf. inversion Hleaf; subst; discriminate.
    + done.
  - rewrite for_each_cons in Hrun.
    destruct (item_step depth task (key, v) s) as [s1 [[]|e]] eqn:Hstep;
      [|discriminate].
    apply NoDup_cons in Hnd as [Hni Hnd]. rewrite list_elem_of_In in Hni.
    apply Forall_cons in Hall as [Hcv Hall].
    destruct (item_step_grows _ _ _ _ _ Hstep) as [new Hnew].
    pose proof (item_step_keeps_wf _ _ _ _ _ Hstep Hwf) as Hwf1.
    apply item_step_projects in Hstep as [HA1 HB1]; [|done].
    assert (Hall1 : Forall (fun kv => closed_value (py_heap s1) (snd kv)) rest).
    { rewrite Hnew. eapply Forall_impl; [exact Hall|].
      intros kv. apply closed_value_ext. }
    destruct (IHrest s1 s' Hwf1 Hnd Hall1 Hrun) as [HA2 HB2].
    rewrite Hnew in HA2, HB2. split.
    + intros p v' Hleaf.
      apply (leaf_in_cons _ _ _ _ _ _ Hni) in Hleaf as [Hleaf|Hleaf].
      * destruct (HA1 _ _ Hleaf) as (r & Hr & Hp). exists r. split; [done|].
        rewrite HB2; [done|]. intros [v'' Hl%leaf_in_head].
        apply leaf_in_head in Hleaf.
        destruct Hl as (k & p' & -> & Hk), Hleaf as (k' & p'' & [= <- <-] & Hk').
        cbn in Hk'. destruct Hk' as [<-|[]]. done.
      * assert (Hcl : closed_value (py_heap s) v') by (by eapply leaf_in_closed).
        apply (leaf_in_ext _ new Hwf _ _ _ Hall) in Hleaf.
        destruct (HA2 _ _ Hleaf) as (r & Hr & Hp). exists r.
        by rewrite parse_value_ext in Hr.
    + intros p Hno. rewrite HB2, HB1; [done| |].
      * intros [v' Hl]. apply Hno. exists v'. apply leaf_in_cons; tauto.
      * intros [v' Hl]. apply Hno. exists v'. apply leaf_in_cons; [done|].
        right. by apply (leaf_in_ext _ new Hwf _ _ _ Hall).
Qed.

End Projection_step.

Lemma set_task_attributes_projects depth :
  forall task attributes s s' items,
    wf_store (py_heap s) ->
    as_dict (py_heap s) attributes = Some items ->
    set_task_attributes depth task attributes s = (s', Ok tt) ->
    projected task (py_heap s) items s s'.
Proof.
  induction depth as [|depth IH]; intros task attributes s s' items Hwf Hd.
  - discriminate.
  - rewrite set_task_attributes_unfold. unfold dict_items. rewrite Hd.
    destruct (wf_as_dict _ _ _ Hwf Hd) as [Hnd Hall].
    by apply items_loop_projects.
Qed.

(** ** Layers *)

Lemma dict_get_filter_keys {A} key keys (items : list (string * A)) :
  dict_get key (List.filter (fun kv => negb (key_in (fst kv) keys)) items)
  = if key_in key keys then None else dict_get key items.
Proof.
  induction items as [|[k x] items IH]; cbn [List.filter dict_get fst].
  - by destruct (key_in key keys).
  - destruct (key_in k keys) eqn:Hk; cbn [negb dict_get].
    + rewrite IH. destruct (String.eqb_spec key k) as [->|_]; [|done].
      by rewrite Hk.
    + rewrite IH. destruct (String.eqb_spec key k) as [->|_]; [|done].
      by rewrite Hk.
Qed.

Lemma leaf_in_filter_Path h items p v :
  leaf_in h (List.filter (fun kv => negb (key_in (fst kv) ["Path"])) items) p v
  <-> leaf_in h items p v /\ head p <> Some "Path".
Proof.
  assert (Hkey : forall key, key_in key ["Path"] = true <-> key = "Path").
  { intros key. cbn. rewrite orb_false_r. apply String.eqb_eq. }
  split.
  - intros Hleaf.
    inversion Hleaf as [? k ? Hget Has|? k d items' p' ? Hget Hd Hl]; subst;
      rewrite dict_get_filter_keys in Hget;
      destruct (key_in k ["Path"]) eqn:Hk; try discriminate;
      (split; [|cbn; intros [= ->]; vm_compute in Hk; discriminate]).
    + by apply leaf_here.
    + by eapply leaf_below.
  - intros [Hleaf Hhd].
    inversion Hleaf as [? k ? Hget Has|? k d items' p' ? Hget Hd Hl]; subst;
      (assert (Hk : key_in k ["Path"] = false);
       [destruct (key_in k ["Path"]) eqn:Hk; [|done];
        apply Hkey in Hk; subst; by destruct Hhd|]).
    + apply leaf_here; [|done]. by rewrite dict_get_filter_keys, Hk.
    + eapply leaf_below; [|done..]. by rewrite dict_get_filter_keys, Hk.
Qed.

Lemma getitem_Ok h d key v :
  getitem h d key = Ok v ->
  exists items, as_dict h d = Some items /\ dict_get key items = Some v.
Proof.
  unfold getitem. destruct (as_dict h d) as [items|]; [|done].
  destruct (dict_get key items) as [v'|] eqn:Hget; [|done].
  intros [= ->]. eauto.
Qed.

Lemma set_task_attributes_Ok_dict depth task attributes s s' :
  set_task_attributes depth task attributes s = (s', Ok tt) ->
  exists items, as_dict (py_heap s) attributes = Some items.
Proof.
  destruct depth as [|depth]; [discriminate|].
  rewrite set_task_attributes_unfold. unfold dict_items.
  destruct (as_dict (py_heap s) attributes); [eauto|discriminate].
Qed.

(** C8, as stated, fails for the keys [Triggers] and [Actions]: when both
    layers list actions, the built task has the action of the defaults and,
    after it, the action of the user, not the user's alone. *)
Lemma default_actions_are_kept :
  match snd (build 5 (VRef 2) (VRef 5) store_with_default_action) with
  | Ok t =>
      colls (definition t) !! [Attr "Actions"] = Some [VInt 7; VInt 0]
      /\ ~ user_layer_wins store_with_default_action (VRef 2) (VRef 5) t "Actions"
  | Raise _ => False
  end.
Proof.
  destruct (snd (build 5 (VRef 2) (VRef 5) store_with_default_action))
    as [t|e] eqn:Hb; vm_compute in Hb; [|discriminate].
  injection Hb as <-. split; [by vm_compute|].
  intros H.
  specialize (H (VRef 1) (VRef 4) eq_refl eq_refl ltac:(discriminate) eq_refl).
  vm_compute in H. destruct H as (codes & [= <-] & Hlen). discriminate.
Qed.

(** C8, amended: [build] projects the default layer first and the user
    layer, without [Path], second.  For every key that the user layer binds,
    at some nesting path, to a value the projector assigns to a property
    (anything but a nested dictionary or a list under [Triggers] or
    [Actions]), the built task holds the user's value, resolved, on that
    property, whatever the defaults bind there; and every such entry of the
    default layer that the user layer does not bind keeps the default's
    value, resolved. *)
Theorem build_layers (depth : nat) (task_defaults task_attributes : value)
    (h h' : heap) (t : Task) :
  wf_store h ->
  build depth task_defaults task_attributes h = (h', Ok t) ->
  (forall p v,
     user_leaf h task_attributes p v ->
     exists r, parse_value h (List.last p "") v = Ok r
               /\ prop_at (definition t) p = Some r)
  /\ (forall p v,
        leaf_at h task_defaults p v ->
        ~ (exists v', user_leaf h task_attributes p v') ->
        exists r, parse_value h (List.last p "") v = Ok r
                  /\ prop_at (definition t) p = Some r).
Proof.
  intros Hwf. unfold build.
  destruct (bind get_heap _ _) as [s r] eqn:Hm. intros [= <- ->].
  apply bind_Ok in Hm as (s0 & h0 & [= <- <-] & Hm). cbn [py_heap] in Hm.
  apply bind_Ok in Hm as (s0 & vp & [= <- Hpath] & Hm).
  apply bind_Ok in Hm as (s1 & [] & Hdef & Hm).
  apply bind_Ok in Hm as (s2 & filtered & Hfil & Hm).
  apply bind_Ok in Hm as (s3 & [] & Husr & Hm).
  apply bind_Ok in Hm as (s4 & h1 & [= <- <-] & Hm).
  apply bind_Ok in Hm as (s4 & vp' & [= <- _] & Hm).
  apply bind_Ok in Hm as (s4 & tp & [= <- _] & Hm).
  injection Hm as <- <-. cbn [definition].
  (* the layers are dictionaries of the store *)
  apply getitem_Ok in Hpath as (items_u & Hu & _).
  destruct (set_task_attributes_Ok_dict _ _ _ _ _ Hdef) as [items_d Hd].
  cbn [py_heap] in Hd.
  destruct (wf_as_dict _ _ _ Hwf Hu) as [_ Hall_u].
  (* the projection of the defaults *)
  destruct (set_task_attributes_grows _ _ _ _ _ _ Hdef) as [new1 Hnew1].
  pose proof (set_task_attributes_keeps_wf _ _ _ _ _ _ Hdef Hwf) as Hwf1.
  apply (set_task_attributes_projects depth [] task_defaults
           {| py_heap := h; py_task := NewTask |} s1 items_d Hwf Hd) in Hdef
    as [HAd _].
  cbn [py_heap] in Hnew1, HAd.
  (* the filtered user layer *)
  pose proof (filter_keys_keeps_wf _ _ _ _ _ Hfil Hwf1) as Hwf2.
  apply filter_keys_new in Hfil as (items_u' & Hu' & -> & Hnew2 & Htask2).
  rewrite Hnew1, as_dict_ext, Hu in Hu' by (by eapply as_dict_closed).
  injection Hu' as <-.
  assert (Hf : as_dict (py_heap s2) (VRef (length (py_heap s1)))
               = Some (List.filter (fun kv => negb (key_in (fst kv) ["Path"]))
                                   items_u)).
  { unfold as_dict. rewrite Hnew2, lookup_app_r by done.
    by rewrite Nat.sub_diag. }
  apply (set_task_attributes_projects _ _ _ _ _ _ Hwf2 Hf) in Husr as [HAu HBu].
  assert (Hleaf : forall p v,
    leaf_in (py_heap s2)
            (List.filter (fun kv => negb (key_in (fst kv) ["Path"])) items_u) p v
    <-> leaf_in h items_u p v /\ head p <> Some "Path").
  { intros p v. rewrite Hnew2, Hnew1, <- app_assoc.
    rewrite leaf_in_ext; [apply leaf_in_filter_Path|done|].
    apply Forall_forall. intros kv Hkv%list_elem_of_In%filter_In.
    rewrite Forall_forall in Hall_u. apply Hall_u, list_elem_of_In. tauto. }
  unfold prop_at. cbn [app] in HAu, HBu, HAd. split.
  - intros p v [(items & Hi & Hl) Hhd].
    rewrite Hu in Hi. injection Hi as <-.
    destruct (HAu p v) as (r & Hr & Hp); [by apply Hleaf|].
    exists r. split; [|done].
    rewrite Hnew2, Hnew1, <- app_assoc, parse_value_ext in Hr; [done|].
    by eapply leaf_in_closed.
  - intros p v (items & Hi & Hl) Hno.
    rewrite Hd in Hi. injection Hi as <-.
    destruct (HAd p v Hl) as (r & Hr & Hp). exists r. split; [done|].
    rewrite (HBu p), Htask2; [done|].
    intros [v' [Hl' Hhd]%Hleaf]. apply Hno. exists v'.
    split; [|done]. by exists items_u.
Qed.

(** The example, built: the user's time limit, the defaults' principal with
    its logon type resolved, and one trigger created with the code of
    [DAILY] and given the entries of its dictionary other than [Type]. *)
Example example_task_built :
  path example_task = Path_of "\foo\bar"
  /\ prop_at (definition example_task) ["Settings"; "ExecutionTimeLimit"]
     = Some (VStr "PT1H")
  /\ prop_at (definition example_task) ["Principal"; "LogonType"] = Some (VInt 2)
  /\ colls (definition example_task) !! [Attr "Triggers"] = Some [VInt 2]
  /\ props (definition example_task)
       !! [Attr "Triggers"; Item 0; Attr "DaysInterval"] = Some (VInt 1)
  /\ props (definition example_task)
       !! [Attr "Triggers"; Item 0; Attr "Type"] = None.
Proof. repeat split; by vm_compute. Qed.

Lemma example_store_wf : wf_store example_store.
Proof.
  intros l o Hl.
  do 7 (destruct l as [|l]; [injection Hl as <-; cbn;
    repeat first [ split | apply Forall_cons | apply Forall_nil
                 | apply (bool_decide_unpack _); by vm_compute
                 | exact I | cbn; lia ] |]).
  discriminate.
Qed.

Lemma build_layers_witness :
  prop_at (definition example_task) ["Settings"; "ExecutionTimeLimit"]
    = Some (VStr "PT1H")
  /\ prop_at (definition example_task) ["Settings"; "Enabled"]
    = Some (VBool true).
Proof.
  destruct (build_layers 5 (VRef 1) (VRef 6) example_store
              (fst (build 5 (VRef 1) (VRef 6) example_store)) example_task
              example_store_wf) as [HA HB].
  { vm_compute. reflexivity. }
  split.
  - destruct (HA ["Settings"; "ExecutionTimeLimit"] (VStr "PT1H"))
      as (r & [= <-] & Hp); [|exact Hp].
    split; [|discriminate]. eexists. split; [reflexivity|].
    eapply leaf_below; [reflexivity..|]. apply leaf_here; [reflexivity|].
    split; reflexivity.
  - destruct (HB ["Settings"; "Enabled"] (VBool true))
      as (r & [= <-] & Hp); [| |exact Hp].
    + eexists. split; [reflexivity|].
      eapply leaf_below; [reflexivity..|]. apply leaf_here; [reflexivity|].
      split; reflexivity.
    + intros (v' & (items & [= <-] & Hl) & _).
      inversion Hl as [|? k d items' p' ? Hget Hd Hl']; subst.
      injection Hget as <-. injection Hd as <-.
      inversion Hl' as [? k ? Hget' _|? k d items'' p'' ? _ _ Hl'']; subst;
        [discriminate|inversion Hl''].
Defined.

(** * More properties *)

(** ** Bit-flag resolution: failures, composition, decoding *)

Lemma or_all_app mapping l1 l2 :
  or_all mapping (l1 ++ l2) = Z.lor (or_all mapping l1) (or_all mapping l2).
Proof.
  induction l1 as [|x l1 IH]; [reflexivity|].
  cbn [app]. rewrite !or_all_cons, IH. by rewrite Z.lor_assoc.
Qed.

Lemma reduce_or_spec mapping li :
  forall a,
    reduce_or mapping a li
    = if forallb (resolvable mapping) li
      then Ok (Z.lor a (or_all mapping li))
      else Raise TypeError.
Proof.
  induction li as [|x li IH]; intros a.
  - cbn. by rewrite Z.lor_0_r.
  - rewrite or_all_cons. cbn [reduce_or forallb].
    destruct x as [| b | z | s | iso | ret | l]; cbn [mapping_get resolvable obind int_or flag_code andb];
      try reflexivity.
    + rewrite IH. destruct (forallb _ li); [|done]. by rewrite Z.lor_assoc.
    + rewrite IH. destruct (forallb _ li); [|done]. by rewrite Z.lor_assoc.
    + destruct (dict_get s mapping) as [n|]; cbn [obind int_or andb default from_option];
        [|reflexivity].
      rewrite IH. destruct (forallb _ li); [|done]. by rewrite Z.lor_assoc.
Qed.

(** X1: [flag_value] returns the OR of what the elements stand for when
    every element is a name of the table, an integer or a boolean, and
    raises [TypeError] otherwise; in particular a name the table does not
    know makes the resolution fail, wherever it is in the list. *)
Theorem flag_value_unknown_name_raises (mapping : table) (l1 l2 : list value)
    (s : string) :
  dict_get s mapping = None ->
  (forall li,
     flag_value li mapping
     = if forallb (resolvable mapping) li
       then Ok (or_all mapping li)
       else Raise TypeError)
  /\ flag_value (l1 ++ VStr s :: l2) mapping = Raise TypeError.
Proof.
  intros Hs.
  assert (Hall : forall li,
     flag_value li mapping
     = if forallb (resolvable mapping) li
       then Ok (or_all mapping li)
       else Raise TypeError).
  { intros li. unfold flag_value. rewrite reduce_or_spec.
    by rewrite Z.lor_0_l. }
  split; [exact Hall|].
  rewrite Hall, forallb_app. cbn [forallb resolvable]. rewrite Hs.
  by rewrite andb_false_r.
Qed.

Lemma flag_value_unknown_name_raises_witness :
  flag_value [VStr "Monday"; VStr "Someday"; VInt 4] DAYSOFWEEK = Raise TypeError.
Proof.
  exact (proj2 (flag_value_unknown_name_raises DAYSOFWEEK [VStr "Monday"]
                  [VInt 4] "Someday" eq_refl)).
Defined.

(** X2: the mask of a list in two parts is the OR of the masks of the
    parts, when both resolve. *)
Theorem flag_value_app (mapping : table) (l1 l2 : list value) (m1 m2 : Z) :
  flag_value l1 mapping = Ok m1 ->
  flag_value l2 mapping = Ok m2 ->
  flag_value (l1 ++ l2) mapping = Ok (Z.lor m1 m2).
Proof.
  unfold flag_value. rewrite !reduce_or_spec, forallb_app.
  destruct (forallb _ l1); [|discriminate].
  destruct (forallb _ l2); [|discriminate].
  rewrite !Z.lor_0_l. intros [= <-] [= <-]. cbn. by rewrite or_all_app.
Qed.

Lemma flag_value_app_witness :
  flag_value ([VStr "Monday"; VInt 64] ++ [VStr "Friday"]) DAYSOFWEEK
  = Ok (Z.lor 66 32).
Proof.
  exact (flag_value_app DAYSOFWEEK [VStr "Monday"; VInt 64] [VStr "Friday"]
           66 32 eq_refl eq_refl).
Defined.

Lemma bits_from_get i t :
  bits_from i t = true ->
  forall s n, dict_get s t = Some n ->
  exists j, i <= j /\ n = (2 ^ Z.of_nat j)%Z.
Proof.
  revert i. induction t as [|[k n0] t IH]; intros i; [discriminate|].
  cbn [bits_from dict_get]. intros [Hn Ht]%andb_prop s n.
  apply Z.eqb_eq in Hn. destruct (String.eqb s k).
  - intros [= <-]. exists i. split; [lia|done].
  - intros Hget. destruct (IH _ Ht _ _ Hget) as (j & Hj & ->).
    exists j. split; [lia|done].
Qed.

Lemma bits_from_inj i t :
  bits_from i t = true ->
  forall s s' n, dict_get s t = Some n -> dict_get s' t = Some n -> s = s'.
Proof.
  revert i. induction t as [|[k n0] t IH]; intros i; [discriminate|].
  cbn [bits_from dict_get]. intros [Hn Ht]%andb_prop s s' n.
  apply Z.eqb_eq in Hn.
  assert (Htail : forall x, dict_get x t = Some n0 -> False).
  { intros x Hx. destruct (bits_from_get _ _ Ht _ _ Hx) as (j & Hj & Heq).
    rewrite Hn in Heq. apply Z.pow_inj_r in Heq; lia. }
  destruct (String.eqb_spec s k) as [->|_], (String.eqb_spec s' k) as [->|_];
    try done.
  - intros [= <-] Hx. by destruct (Htail _ Hx).
  - intros Hx [= <-]. by destruct (Htail _ Hx).
  - by apply (IH (S i)).
Qed.

Lemma land_pow2_testbit (m : Z) (j : nat) :
  Z.land m (2 ^ Z.of_nat j) = (2 ^ Z.of_nat j)%Z
  <-> Z.testbit m (Z.of_nat j) = true.
Proof.
  split.
  - intros Heq.
    assert (Hb : Z.testbit (Z.land m (2 ^ Z.of_nat j)) (Z.of_nat j) = true).
    { rewrite Heq. apply Z.pow2_bits_true. lia. }
    rewrite Z.land_spec in Hb. by apply andb_prop in Hb as [-> _].
  - intros Hb. apply Z.bits_inj'. intros k Hk.
    rewrite Z.land_spec, Z.pow2_bits_eqb by lia.
    destruct (Z.eqb_spec (Z.of_nat j) k) as [<-|_].
    + by rewrite Hb.
    + apply andb_false_r.
Qed.

Lemma testbit_or_all mapping li (j : nat) :
  bits_from 0 mapping = true ->
  Forall (known_flag mapping) li ->
  Z.testbit (or_all mapping li) (Z.of_nat j) = true
  <-> exists s, In (VStr s) li /\ dict_get s mapping = Some (2 ^ Z.of_nat j)%Z.
Proof.
  intros Hbits. induction 1 as [|x li (s & n & -> & Hs) _ IH].
  - cbn. rewrite Z.bits_0. split; [done|]. by intros (s & [] & _).
  - rewrite or_all_cons, Z.lor_spec, orb_true_iff, IH.
    cbn [flag_code]. rewrite Hs. cbn [default from_option id].
    destruct (bits_from_get _ _ Hbits _ _ Hs) as (i & _ & ->).
    rewrite Z.pow2_bits_eqb, Z.eqb_eq by lia. split.
    + intros [Heq|(s' & Hin & Hs')].
      * exists s. split; [by left|]. apply Nat2Z.inj in Heq. by subst.
      * exists s'. split; [by right|done].
    + intros (s' & [[= <-]|Hin] & Hs').
      * left. rewrite Hs in Hs'. injection Hs' as Heq.
        apply Z.pow_inj_r in Heq; lia.
      * right. eauto.
Qed.

(** X3: in a table of single bits (the day-of-week, day-of-month and
    month-of-year tables are such tables) the mask of a list of known names
    tells which names were listed: the bit of a name is set in the mask
    exactly when the name is in the list. *)
Theorem flag_value_decodes (mapping : table) (li : list value)
    (s : string) (n m : Z) :
  bits_from 0 mapping = true ->
  Forall (known_flag mapping) li ->
  dict_get s mapping = Some n ->
  flag_value li mapping = Ok m ->
  (Z.land m n = n <-> In (VStr s) li)
  /\ bits_from 0 DAYSOFWEEK = true
  /\ bits_from 0 DAYSOFMONTH = true
  /\ bits_from 0 MONTHSOFYEAR = true.
Proof.
  intros Hbits Hk Hs. unfold flag_value. rewrite reduce_or_known by done.
  rewrite Z.lor_0_l. intros [= <-].
  split; [|repeat split].
  destruct (bits_from_get _ _ Hbits _ _ Hs) as (j & _ & ->).
  rewrite land_pow2_testbit, testbit_or_all by done. split.
  - intros (s' & Hin & Hs').
    by rewrite (bits_from_inj _ _ Hbits _ _ _ Hs Hs').
  - intros Hin. eauto.
Qed.

Lemma flag_value_decodes_witness :
  Z.land 0x80000010 0x80000000 = 0x80000000%Z
  <-> In (VStr "Last") [VStr "5"; VStr "Last"].
Proof.
  refine (proj1 (flag_value_decodes DAYSOFMONTH [VStr "5"; VStr "Last"]
                   "Last" 0x80000000 0x80000010 eq_refl _ eq_refl eq_refl)).
  repeat constructor.
  - exists "5", 0x10%Z. split; reflexivity.
  - exists "Last", 0x80000000%Z. split; reflexivity.
Defined.

Lemma lt_pow2_shiftr (x k : Z) :
  (0 <= x)%Z -> (0 <= k)%Z -> (x < 2 ^ k)%Z <-> Z.shiftr x k = 0%Z.
Proof.
  intros Hx Hk. rewrite Z.shiftr_div_pow2 by done.
  assert (0 < 2 ^ k)%Z by (apply Z.pow_pos_nonneg; lia).
  rewrite Z.div_small_iff by lia. lia.
Qed.

Lemma or_all_bound mapping li (k : Z) :
  (0 <= k)%Z ->
  (forall s n, dict_get s mapping = Some n -> (0 <= n < 2 ^ k)%Z) ->
  Forall (known_flag mapping) li ->
  (0 <= or_all mapping li < 2 ^ k)%Z.
Proof.
  intros Hk Htable. induction 1 as [|x li (s & n & -> & Hs) _ IH].
  - cbn. split; [lia|]. apply Z.pow_pos_nonneg; lia.
  - rewrite or_all_cons. cbn [flag_code]. rewrite Hs. cbn [default from_option id].
    destruct (Htable _ _ Hs) as [Hn0 Hn].
    assert (H0 : (0 <= Z.lor n (or_all mapping li))%Z) by (apply Z.lor_nonneg; lia).
    split; [done|].
    apply lt_pow2_shiftr; [done..|].
    rewrite Z.shiftr_lor. apply Z.lor_eq_0_iff.
    split; apply lt_pow2_shiftr; lia.
Qed.

Lemma DAYSOFMONTH_bound s n :
  dict_get s DAYSOFMONTH = Some n -> (0 <= n < 2 ^ 32)%Z.
Proof.
  intros Hget%dict_get_In.
  assert (Hall : forallb (fun kv => (0 <=? snd kv)%Z && (snd kv <? 2 ^ 32)%Z)
                         DAYSOFMONTH = true) by reflexivity.
  rewrite forallb_forall in Hall. apply Hall in Hget.
  cbn [snd] in Hget. apply andb_prop in Hget as [H1 H2]. lia.
Qed.

(** X4: the mask of a list of day-of-month names is an unsigned 32-bit
    number, and it fits a signed 32-bit integer (the range of the COM
    property, which the source notes as a problem for [Last]) exactly when
    [Last] is not listed. *)
Theorem days_of_month_mask_range (li : list value) (m : Z) :
  Forall (known_flag DAYSOFMONTH) li ->
  flag_value li DAYSOFMONTH = Ok m ->
  (0 <= m < 2 ^ 32)%Z
  /\ ((m < 2 ^ 31)%Z <-> ~ In (VStr "Last") li).
Proof.
  intros Hk. unfold flag_value. rewrite reduce_or_known by done.
  rewrite Z.lor_0_l. intros [= <-].
  pose proof (or_all_bound DAYSOFMONTH li 32 ltac:(lia) DAYSOFMONTH_bound Hk)
    as [H0 H32].
  split; [done|].
  assert (Hbit : Z.testbit (or_all DAYSOFMONTH li) 31 = true
                 <-> In (VStr "Last") li).
  { rewrite (testbit_or_all DAYSOFMONTH li 31 eq_refl Hk). split.
    - intros (s & Hin & Hs).
      by rewrite (bits_from_inj 0 DAYSOFMONTH eq_refl "Last" s _ eq_refl Hs).
    - intros Hin. exists "Last". by split. }
  rewrite <- Hbit.
  replace 31%Z with (0 + 31)%Z at 2 by done.
  rewrite <- Z.shiftr_spec, Z.bit0_odd, Z.shiftr_div_pow2 by lia.
  assert (Hq : (0 <= or_all DAYSOFMONTH li / 2 ^ 31 < 2)%Z).
  { split; [apply Z.div_pos; lia|]. apply Z.div_lt_upper_bound; lia. }
  assert (Hlt : (or_all DAYSOFMONTH li < 2 ^ 31)%Z
                <-> (or_all DAYSOFMONTH li / 2 ^ 31 = 0)%Z).
  { rewrite Z.div_small_iff by lia. lia. }
  rewrite Hlt.
  destruct (Z.eq_dec (or_all DAYSOFMONTH li / 2 ^ 31)%Z 0%Z) as [->|Hne].
  - cbn. split; [intros _; discriminate|done].
  - replace (or_all DAYSOFMONTH li / 2 ^ 31)%Z with 1%Z by lia.
    cbn. split; [done|]. intros H. by destruct H.
Qed.

Lemma days_of_month_mask_range_witness :
  (0 <= 0x4010 < 2 ^ 32)%Z
  /\ ((0x4010 < 2 ^ 31)%Z <-> ~ In (VStr "Last") [VStr "5"; VStr "15"]).
Proof.
  refine (days_of_month_mask_range [VStr "5"; VStr "15"] 0x4010 _ eq_refl).
  repeat constructor.
  - exists "5", 0x10%Z. split; reflexivity.
  - exists "15", 0x4000%Z. split; reflexivity.
Defined.

(** ** The value resolver: when it fails *)





(** ** Paths, once more *)

Lemma rsplit_join pre nm :
  contains sep nm = false -> rsplit (pre ++ String sep nm)%string = Some (pre, nm).
Proof.
  intros Hnm.
  assert (Hnone : rsplit nm = None).
  { induction nm as [|c nm IH]; [reflexivity|].
    cbn in Hnm. apply orb_false_elim in Hnm as [Hc Hnm].
    cbn. by rewrite (IH Hnm), Hc. }
  induction pre as [|c pre IH].
  - change (EmptyString ++ String sep nm)%string with (String sep nm).
    cbn [rsplit]. by rewrite Hnone, Ascii.eqb_refl.
  - change (String c pre ++ String sep nm)%string
      with (String c (pre ++ String sep nm)%string).
    cbn [rsplit]. by rewrite IH.
Qed.

Lemma rsplit_name_nosep s pre nm :
  rsplit s = Some (pre, nm) -> contains sep nm = false.
Proof.
  revert pre nm. induction s as [|c s IH]; intros pre nm; [discriminate|].
  cbn [rsplit]. destruct (rsplit s) as [[pre' nm']|] eqn:Hs.
  - intros [= <- <-]. by eapply IH.
  - destruct (Ascii.eqb c sep); [|discriminate]. intros [= <- <-].
    clear IH. induction s as [|c' s IH]; [reflexivity|].
    cbn [rsplit] in Hs. destruct (rsplit s) as [[? ?]|]; [discriminate|].
    destruct (Ascii.eqb c' sep) eqn:Hc; [discriminate|].
    cbn. rewrite Hc. by apply IH.
Qed.


(** ** The default author *)

(** X8: [default_author] needs the variable [USERDOMAIN]: without it it
    raises [KeyError]; with an empty domain it is the login name alone;
    otherwise it is [DOMAIN\login], which splits back at its last backslash
    into the domain and the login name (a login name has no backslash). *)
Theorem default_author_splits (environ : list (string * string))
    (domain login : string) :
  dict_get "USERDOMAIN" environ = Some domain ->
  domain <> EmptyString ->
  contains sep login = false ->
  (exists author, default_author environ login = Ok author
                  /\ rsplit author = Some (domain, login))
  /\ (forall environ', dict_get "USERDOMAIN" environ' = None ->
        default_author environ' login = Raise (KeyError "USERDOMAIN"))
  /\ (forall environ', dict_get "USERDOMAIN" environ' = Some EmptyString ->
        default_author environ' login = Ok login).
Proof.
  intros Hd Hne Hlogin. split; [|split].
  - unfold default_author. rewrite Hd.
    destruct (String.eqb_spec domain EmptyString) as [|_]; [done|].
    eexists. split; [reflexivity|]. by apply rsplit_join.
  - intros environ' Hnone. unfold default_author. by rewrite Hnone.
  - intros environ' Hempty. unfold default_author. by rewrite Hempty.
Qed.

Lemma default_author_splits_witness :
  exists author,
    default_author [("USERDOMAIN", "CORP"); ("USERNAME", "jm")] "jm" = Ok author
    /\ rsplit author = Some ("CORP", "jm").
Proof.
  refine (proj1 (default_author_splits [("USERDOMAIN", "CORP"); ("USERNAME", "jm")]
                   "CORP" "jm" eq_refl _ eq_refl)).
  discriminate.
Defined.

(** ** Key filtering *)

(** X9: [filter_keys] fails with [AttributeError] on what is not a
    dictionary and leaves the state as it was; on a dictionary it returns a
    dictionary in which a filtered key is missing ([KeyError] on lookup) and
    every other key has the value it has in the original. *)
Theorem filter_keys_lookup (d : value) (keys : list string) (s s' : pystate)
    (v : value) (key : string) :
  filter_keys d keys s = (s', Ok v) ->
  getitem (py_heap s') v key
  = (if key_in key keys then Raise (KeyError key)
     else getitem (py_heap s) d key)
  /\ (forall d' s0, as_dict (py_heap s0) d' = None ->
        filter_keys d' keys s0 = (s0, Raise (AttributeError "items"))).
Proof.
  intros Hf. split.
  - apply filter_keys_new in Hf as (items & Hd & -> & Hnew & _).
    unfold getitem at 1. unfold as_dict at 1.
    rewrite Hnew, lookup_app_r, Nat.sub_diag by done. cbn [lookup list_lookup].
    rewrite dict_get_filter_keys. unfold getitem. rewrite Hd.
    by destruct (key_in key keys).
  - intros d' s0 Hnone. unfold filter_keys, dict_items. by rewrite Hnone.
Qed.

Lemma filter_keys_lookup_witness :
  getitem
    (py_heap (fst (filter_keys (VRef 6) ["Path"]
                     {| py_heap := example_store; py_task := NewTask |})))
    (VRef 7) "Settings"
  = getitem example_store (VRef 6) "Settings".
Proof.
  exact (proj1 (filter_keys_lookup (VRef 6) ["Path"]
    {| py_heap := example_store; py_task := NewTask |} _ (VRef 7) "Settings"
    eq_refl)).
Defined.

(** ** The projector: where it writes *)

#[local] Instance only_below_preorder task : PreOrder (only_below task).
Proof.
  split.
  - intros s q _. done.
  - intros s1 s2 s3 H12 H23 q Hq.
    destruct (H12 q Hq) as [<- <-]. by apply H23.
Qed.

#[local] Instance within_preorder task : PreOrder (within task).
Proof.
  split.
  - intros s q _. done.
  - intros s1 s2 s3 H12 H23 q Hq.
    destruct (H12 q Hq) as [<- <-]. by apply H23.
Qed.

#[local] Instance same_collection_preorder c : PreOrder (same_collection c).
Proof.
  split; unfold same_collection.
  - by intros s.
  - intros s1 s2 s3 H12 H23. by rewrite H23.
Qed.

Lemma below_app task ext q : below (task ++ ext) q -> below task q.
Proof.
  intros (k & e & ->). rewrite <- app_assoc.
  destruct ext as [|x ext]; [by exists k, e|].
  by exists x, (ext ++ k :: e).
Qed.

Lemma below_prefix task q : below task q -> task `prefix_of` q.
Proof. intros (k & e & ->). by apply prefix_app_r. Qed.

Lemma filter_keys_task d keys s s' r :
  filter_keys d keys s = (s', r) -> py_task s' = py_task s.
Proof.
  unfold filter_keys. destruct (dict_items (py_heap s) d) as [items|e].
  - destruct (alloc _ _). by intros [= <- _].
  - by intros [= <- _].
Qed.

Lemma set_task_attributes_only_below depth task attributes :
  preserves (only_below task) (set_task_attributes depth task attributes).
Proof.
  apply (set_task_attributes_preserves only_below).
  - apply _.
  - intros t ext s s' Hc q Hq. apply Hc. intros Hb. apply Hq.
    by eapply below_app.
  - intros t key v s s' r [= <- _] q Hq. cbn. split; [|done].
    apply lookup_insert_ne. intros <-. apply Hq. by exists (Attr key), [].
  - intros t key code s s' r [= <- _] q Hq. cbn. split; [done|].
    apply lookup_insert_ne. intros <-. apply Hq. by exists (Attr key), [].
  - intros t d keys s s' r Hrun q _.
    by rewrite (filter_keys_task _ _ _ _ _ Hrun).
Qed.

(** X10: [set_task_attributes] called on an object of the task definition
    changes properties and collections strictly below that object only, and
    changes no object of the store (it only adds some), whether it returns
    or raises. *)
Theorem set_task_attributes_frame (depth : nat) (task : list seg)
    (attributes : value) (s s' : pystate) (r : outcome unit) (q : list seg) :
  set_task_attributes depth task attributes s = (s', r) ->
  ~ below task q ->
  props (py_task s') !! q = props (py_task s) !! q
  /\ colls (py_task s') !! q = colls (py_task s) !! q
  /\ exists new, py_heap s' = py_heap s ++ new.
Proof.
  intros Hrun Hq.
  destruct (set_task_attributes_only_below _ _ _ _ _ _ Hrun q Hq) as [Hp Hc].
  split; [done|]. split; [done|].
  exact (set_task_attributes_grows _ _ _ _ _ _ Hrun).
Qed.

Lemma set_task_attributes_frame_witness :
  props (py_task (fst (set_task_attributes 3 [Attr "Settings"] (VRef 3)
           {| py_heap := example_store; py_task := definition example_task |})))
    !! [Attr "Principal"; Attr "LogonType"]
  = Some (VInt 2).
Proof.
  refine (eq_trans (proj1 (set_task_attributes_frame 3 [Attr "Settings"] (VRef 3)
    {| py_heap := example_store; py_task := definition example_task |}
    _ _ [Attr "Principal"; Attr "LogonType"] (surjective_pairing _) _)) _).
  - intros (k & ext & [=]).
  - by vm_compute.
Defined.

(** ** The projector: collections *)

Lemma wf_as_list h v elems :
  wf_store h -> as_list h v = Some elems -> Forall (closed_value h) elems.
Proof.
  intros Hwf. destruct v; try done. unfold as_list.
  destruct (h !! l) as [[|elems']|] eqn:Hl; try done.
  intros [= <-]. exact (Hwf l _ Hl).
Qed.

Lemma getitem_ext h new d key :
  closed_value h d -> getitem (h ++ new) d key = getitem h d key.
Proof. intros Hc. unfold getitem. by rewrite as_dict_ext. Qed.

Lemma type_codes_ext h new key elems :
  Forall (closed_value h) elems ->
  type_codes (h ++ new) key elems = type_codes h key elems.
Proof.
  induction 1 as [|item rest Hc _ IH]; [reflexivity|].
  cbn [type_codes]. by rewrite getitem_ext, IH.
Qed.

Lemma Create_spec collection code s s' r :
  Create collection code s = (s', r) ->
  r = Ok (collection ++ [Item (length (default [] (colls (py_task s) !! collection)))])
  /\ colls (py_task s')
     = <[collection := default [] (colls (py_task s) !! collection) ++ [code]]>
         (colls (py_task s))
  /\ props (py_task s') = props (py_task s)
  /\ py_heap s' = py_heap s.
Proof. unfold Create, com_Create. by intros [= <- <-]. Qed.

Lemma not_below_self task k : ~ below (task ++ [k]) task.
Proof.
  intros (k' & ext & Heq). apply (f_equal length) in Heq.
  rewrite !length_app in Heq. cbn in Heq. lia.
Qed.

Lemma element_loop_codes depth coll key (elems : list value) :
  forall s s',
    wf_store (py_heap s) ->
    Forall (closed_value (py_heap s)) elems ->
    for_each elems (element_step depth coll key) s = (s', Ok tt) ->
    exists codes,
      type_codes (py_heap s) key elems = Ok codes
      /\ length codes = length elems
      /\ default [] (colls (py_task s') !! coll)
         = default [] (colls (py_task s) !! coll) ++ codes.
Proof.
  induction elems as [|item rest IH]; intros s s' Hwf Hall Hrun.
  - injection Hrun as <-. exists []. by rewrite app_nil_r.
  - rewrite for_each_cons in Hrun.
    destruct (element_step depth coll key item s) as [s1 [[]|e]] eqn:Hstep;
      [|discriminate].
    apply Forall_cons in Hall as [Hitem Hall].
    unfold element_step in Hstep.
    apply bind_Ok in Hstep as (s0 & h & [= <- <-] & Hstep).
    apply bind_Ok in Hstep as (s0 & ty & [= <- Hty] & Hstep).
    apply bind_Ok in Hstep as (s0 & code & [= <- Hcode] & Hstep).
    apply bind_Ok in Hstep as (sc & item' & HCreate & Hstep).
    apply bind_Ok in Hstep as (sf & filtered & Hfil & Hrec).
    apply Create_spec in HCreate as ([= ->] & Hcolls & _ & Hheap).
    pose proof (filter_keys_task _ _ _ _ _ Hfil) as Htask.
    assert (Hwfc : wf_store (py_heap sc)) by (by rewrite Hheap).
    pose proof (filter_keys_keeps_wf _ _ _ _ _ Hfil Hwfc) as Hwff.
    destruct (filter_keys_grows _ _ _ _ _ Hfil) as [new1 Hnew1].
    pose proof (set_task_attributes_keeps_wf _ _ _ _ _ _ Hrec Hwff) as Hwf1.
    destruct (set_task_attributes_grows _ _ _ _ _ _ Hrec) as [new2 Hnew2].
    destruct (set_task_attributes_only_below _ _ _ _ _ _ Hrec coll
                (not_below_self _ _)) as [_ Hc1].
    assert (Hext : py_heap s1 = py_heap s ++ (new1 ++ new2)).
    { by rewrite Hnew2, Hnew1, Hheap, app_assoc. }
    destruct (IH s1 s' Hwf1) as (codes & Hcodes & Hlen & Hfinal); [|done|].
    { rewrite Hext. eapply Forall_impl; [exact Hall|].
      intros v. apply closed_value_ext. }
    rewrite Hext, type_codes_ext in Hcodes by done.
    exists (code :: codes). split; [|split].
    + cbn [type_codes]. rewrite Hty. cbn [obind]. rewrite Hcode. cbn [obind].
      by rewrite Hcodes.
    + cbn. by rewrite Hlen.
    + rewrite Hfinal, Hc1, Htask, Hcolls, lookup_insert_eq.
      cbn [default from_option id].
      by rewrite <- app_assoc.
Qed.

Lemma item_step_within depth task kv :
  preserves (within (getattr task (fst kv))) (item_step depth task kv).
Proof.
  unfold item_step.
  apply preserves_bind; [apply _| |intros h].
  { intros s s' r [= <- _]. reflexivity. }
  destruct (isinstance_dict h (snd kv)).
  { intros s s' r Hrun q Hq.
    apply (set_task_attributes_only_below _ _ _ _ _ _ Hrun).
    intros Hb. apply Hq. by apply below_prefix. }
  destruct (isinstance_list h (snd kv) && key_in (fst kv) ["Triggers"; "Actions"]).
  - apply preserves_for_each; [apply _|]. intros item _. unfold element_step.
    apply preserves_bind; [apply _| |intros h1].
    { intros s s' r [= <- _]. reflexivity. }
    apply preserves_bind; [apply _|apply preserves_lift; apply _|]. intros ty.
    apply preserves_bind; [apply _|apply preserves_lift; apply _|]. intros code.
    apply (preserves_bind_ret _
             (fun a => exists n, a = getattr task (fst kv) ++ [Item n])).
    + intros s s' r Hc q Hq. apply Create_spec in Hc as (_ & -> & -> & _).
      split; [done|]. apply lookup_insert_ne. by intros <-.
    + intros s s' a Hc. apply Create_spec in Hc as ([= ->] & _). eauto.
    + intros item' [n ->].
      apply preserves_bind; [apply _| |intros filtered].
      { intros s s' r Hf q _. by rewrite (filter_keys_task _ _ _ _ _ Hf). }
      intros s s' r Hrun q Hq.
      apply (set_task_attributes_only_below _ _ _ _ _ _ Hrun).
      intros Hb%below_prefix. apply Hq.
      etransitivity; [|exact Hb]. by apply prefix_app_r.
  - apply preserves_bind; [apply _|apply preserves_lift; apply _|]. intros v'.
    intros s s' r [= <- _] q Hq. cbn. split; [|done].
    apply lookup_insert_ne. by intros <-.
Qed.

Lemma attr_not_prefix task (k k' : string) :
  k <> k' -> ~ getattr task k' `prefix_of` getattr task k.
Proof.
  intros Hne [ext Heq]. unfold getattr in Heq.
  rewrite <- app_assoc in Heq. apply app_inv_head in Heq.
  injection Heq as Heq _. congruence.
Qed.

Lemma items_loop_codes depth task key (items : list (string * value)) :
  forall s s' v elems,
    wf_store (py_heap s) ->
    NoDup (map fst items) ->
    Forall (fun kv => closed_value (py_heap s) (snd kv)) items ->
    for_each items (item_step depth task) s = (s', Ok tt) ->
    dict_get key items = Some v ->
    as_list (py_heap s) v = Some elems ->
    key_in key ["Triggers"; "Actions"] = true ->
    exists codes,
      type_codes (py_heap s) key elems = Ok codes
      /\ length codes = length elems
      /\ default [] (colls (py_task s') !! getattr task key)
         = default [] (colls (py_task s) !! getattr task key) ++ codes.
Proof.
  induction items as [|[k0 v0] rest IH];
    intros s s' v elems Hwf Hnd Hall Hrun Hget Hlist Hkey; [discriminate|].
  rewrite for_each_cons in Hrun.
  destruct (item_step depth task (k0, v0) s) as [s1 [[]|e]] eqn:Hstep;
    [|discriminate].
  apply NoDup_cons in Hnd as [Hni Hnd]. rewrite list_elem_of_In in Hni.
  apply Forall_cons in Hall as [Hcv Hall].
  destruct (item_step_grows _ _ _ _ _ _ Hstep) as [new Hnew].
  pose proof (item_step_keeps_wf _ _ _ _ _ _ Hstep Hwf) as Hwf1.
  pose proof (item_step_within _ _ _ _ _ _ Hstep) as Hwithin.
  cbn [dict_get] in Hget.
  destruct (String.eqb_spec key k0) as [->|Hne].
  - (* the list under [key]: its elements are created here *)
    injection Hget as <-.
    assert (Hrest : same_collection (getattr task k0) s1 s').
    { revert Hrun. apply preserves_for_each; [apply _|].
      intros kv Hkv s2 s3 r Hstep'.
      apply (item_step_within _ _ _ _ _ _ Hstep').
      apply attr_not_prefix. intros Heq. apply Hni.
      apply in_map_iff. by exists kv. }
    unfold same_collection in Hrest. rewrite Hrest.
    unfold item_step in Hstep. cbn [fst snd] in Hstep.
    apply bind_Ok in Hstep as (s0 & h & [= <- <-] & Hstep).
    unfold isinstance_dict, isinstance_list in Hstep.
    assert (Hnd' : as_dict (py_heap s) v0 = None).
    { destruct v0; try done. unfold as_list in Hlist. unfold as_dict.
      by destruct (py_heap s !! l) as [[|]|]. }
    rewrite Hnd', Hlist, Hkey in Hstep. cbn [andb default from_option id] in Hstep.
    apply (element_loop_codes _ _ _ _ _ _ Hwf) in Hstep; [done|].
    by eapply wf_as_list.
  - (* another entry: it leaves the collection alone *)
    destruct (Hwithin (getattr task key)) as [_ Hc].
    { by apply attr_not_prefix. }
    assert (Hcv' : closed_value (py_heap s) v).
    { by eapply dict_get_closed. }
    destruct (IH s1 s' v elems Hwf1 Hnd) as (codes & Hcodes & Hlen & Hfinal);
      [| done | done | | done |].
    + rewrite Hnew. eapply Forall_impl; [exact Hall|].
      intros kv. apply closed_value_ext.
    + by rewrite Hnew, as_list_ext.
    + exists codes. rewrite Hnew, type_codes_ext in Hcodes
        by (by eapply wf_as_list).
      by rewrite Hfinal, Hc.
Qed.

(** X11: a list under [Triggers] or [Actions] adds one element to the
    collection per element of the list, in list order and after the
    elements the collection already has; each is created with the code its
    [Type] has in the table of trigger or action types, or with the [Type]
    itself when the table does not know it. *)
Theorem set_task_attributes_appends (depth : nat) (task : list seg)
    (attributes v : value) (items : list (string * value))
    (key : string) (elems : list value) (s s' : pystate) :
  wf_store (py_heap s) ->
  as_dict (py_heap s) attributes = Some items ->
  dict_get key items = Some v ->
  as_list (py_heap s) v = Some elems ->
  key_in key ["Triggers"; "Actions"] = true ->
  set_task_attributes depth task attributes s = (s', Ok tt) ->
  exists codes,
    type_codes (py_heap s) key elems = Ok codes
    /\ length codes = length elems
    /\ default [] (colls (py_task s') !! getattr task key)
       = default [] (colls (py_task s) !! getattr task key) ++ codes.
Proof.
  intros Hwf Hd Hget Hlist Hkey.
  destruct depth as [|depth]; [discriminate|].
  rewrite set_task_attributes_unfold. unfold dict_items. rewrite Hd.
  destruct (wf_as_dict _ _ _ Hwf Hd) as [Hnd Hall].
  intros Hrun. by eapply items_loop_codes.
Qed.

Lemma set_task_attributes_appends_witness :
  exists codes,
    type_codes store_with_default_action "Actions" [VRef 3] = Ok codes
    /\ length codes = 1
    /\ default [] (colls (py_task (fst (set_task_attributes 3 [] (VRef 5)
                     {| py_heap := store_with_default_action;
                        py_task := {| props := ∅;
                                      colls := {[ [Attr "Actions"] := [VInt 7] ]} |} |})))
                   !! [Attr "Actions"])
       = [VInt 7] ++ codes.
Proof.
  refine (set_task_attributes_appends 3 [] (VRef 5) (VRef 4) _ "Actions" [VRef 3]
    {| py_heap := store_with_default_action;
       py_task := {| props := ∅; colls := {[ [Attr "Actions"] := [VInt 7] ]} |} |}
    _ _ eq_refl eq_refl eq_refl eq_refl _).
  - intros l o Hl.
    do 6 (destruct l as [|l]; [injection Hl as <-; cbn;
      repeat first [ split | apply Forall_cons | apply Forall_nil
                   | apply (bool_decide_unpack _); by vm_compute
                   | exact I | cbn; lia ] |]).
    discriminate.
  - by vm_compute.
Defined.

(** ** The task builder: the path *)

Lemma task_path_absolute s : absolute (task_path s).
Proof.
  unfold absolute, task_path. cbn [str].
  destruct (startswith (replace "/"%char sep s) sep) eqn:Hs; [done|].
  reflexivity.
Qed.

Lemma leaf_in_single_key h items key v :
  leaf_in h items [key] v -> dict_get key items = Some v.
Proof.
  intros Hl. inversion Hl as [|? k d items' p' ? _ _ Hl']; subst; [done|].
  inversion Hl'.
Qed.

(** X12: [build] reads the [Path] entry before it does anything else: a
    configuration without it raises [KeyError], and what is not a
    dictionary raises [TypeError]; in both cases nothing has been projected
    and the store is as it was. *)
Theorem build_requires_Path (depth : nat) (task_defaults task_attributes : value)
    (h : heap) (items : list (string * value)) :
  as_dict h task_attributes = Some items ->
  dict_get "Path" items = None ->
  build depth task_defaults task_attributes h = (h, Raise (KeyError "Path"))
  /\ (forall v, as_dict h v = None ->
        build depth task_defaults v h = (h, Raise TypeError)).
Proof.
  intros Hd Hnone. split.
  - unfold build, bind, get_heap, lift, getitem. cbn [py_heap].
    by rewrite Hd, Hnone.
  - intros v Hv. unfold build, bind, get_heap, lift, getitem. cbn [py_heap].
    by rewrite Hv.
Qed.

Lemma build_requires_Path_witness :
  build 5 (VRef 1) (VRef 3) example_store
  = (example_store, Raise (KeyError "Path")).
Proof.
  exact (proj1 (build_requires_Path 5 (VRef 1) (VRef 3) example_store _
                  eq_refl eq_refl)).
Defined.

(** X13: the path of a task that [build] returns is the normalised [Path]
    entry of the configuration, a string, so it starts with a backslash as
    [sync] needs it; and the entry is not projected: unless the defaults
    have a [Path] entry of their own, the built task has no property of
    that name. *)
Theorem build_path (depth : nat) (task_defaults task_attributes : value)
    (h h' : heap) (t : Task) (defaults : list (string * value)) :
  wf_store h ->
  as_dict h task_defaults = Some defaults ->
  dict_get "Path" defaults = None ->
  build depth task_defaults task_attributes h = (h', Ok t) ->
  (exists s, getitem h task_attributes "Path" = Ok (VStr s)
             /\ path t = task_path s)
  /\ absolute (path t)
  /\ prop_at (definition t) ["Path"] = None.
Proof.
  intros Hwf Hd Hnopath. unfold build.
  destruct (bind get_heap _ _) as [s r] eqn:Hm. intros [= <- ->].
  apply bind_Ok in Hm as (s0 & h0 & [= <- <-] & Hm). cbn [py_heap] in Hm.
  apply bind_Ok in Hm as (s0 & vp & [= <- Hpath] & Hm).
  apply bind_Ok in Hm as (s1 & [] & Hdef & Hm).
  apply bind_Ok in Hm as (s2 & filtered & Hfil & Hm).
  apply bind_Ok in Hm as (s3 & [] & Husr & Hm).
  apply bind_Ok in Hm as (s4 & h1 & [= <- <-] & Hm).
  apply bind_Ok in Hm as (s4 & vp' & [= <- Hpath'] & Hm).
  apply bind_Ok in Hm as (s4 & tp & [= <- Htp] & Hm).
  injection Hm as <- <-. cbn [definition path].
  pose proof Hpath as Hpath0.
  apply getitem_Ok in Hpath0 as (items_u & Hu & _).
  (* the store when the path is read again *)
  destruct (set_task_attributes_grows _ _ _ _ _ _ Hdef) as [new1 Hnew1].
  destruct (filter_keys_grows _ _ _ _ _ Hfil) as [new2 Hnew2].
  destruct (set_task_attributes_grows _ _ _ _ _ _ Husr) as [new3 Hnew3].
  cbn [py_heap] in Hnew1.
  rewrite Hnew3, Hnew2, Hnew1, <- !app_assoc, getitem_ext in Hpath'
    by (by eapply as_dict_closed).
  rewrite Hpath in Hpath'. injection Hpath' as <-.
  assert (Hstr : exists s, vp = VStr s /\ tp = task_path s).
  { destruct vp; try discriminate. injection Htp as <-. eauto. }
  destruct Hstr as (sp & -> & ->).
  split; [eauto|]. split; [apply task_path_absolute|].
  (* the projections *)
  pose proof (set_task_attributes_keeps_wf _ _ _ _ _ _ Hdef Hwf) as Hwf1.
  apply (set_task_attributes_projects depth [] task_defaults
           {| py_heap := h; py_task := NewTask |} s1 defaults Hwf Hd) in Hdef
    as [_ HBd].
  pose proof (filter_keys_keeps_wf _ _ _ _ _ Hfil Hwf1) as Hwf2.
  pose proof (filter_keys_task _ _ _ _ _ Hfil) as Htask2.
  apply filter_keys_new in Hfil as (items_u' & Hu' & -> & Hnew2' & _).
  assert (Hf : as_dict (py_heap s2) (VRef (length (py_heap s1)))
               = Some (List.filter (fun kv => negb (key_in (fst kv) ["Path"]))
                                   items_u')).
  { unfold as_dict. rewrite Hnew2', lookup_app_r by done.
    by rewrite Nat.sub_diag. }
  apply (set_task_attributes_projects _ _ _ _ _ _ Hwf2 Hf) in Husr as [_ HBu].
  unfold prop_at. cbn [app] in HBd, HBu.
  rewrite (HBu ["Path"]), Htask2, (HBd ["Path"]); [done| |].
  - intros [v Hl%leaf_in_single_key]. cbn [py_heap] in Hl. congruence.
  - intros [v Hl%leaf_in_filter_Path]. by destruct Hl as [_ Hl].
Qed.

Lemma build_path_witness :
  (exists s, getitem example_store (VRef 6) "Path" = Ok (VStr s)
             /\ path example_task = task_path s)
  /\ absolute (path example_task)
  /\ prop_at (definition example_task) ["Path"] = None.
Proof.
  refine (build_path 5 (VRef 1) (VRef 6) example_store
            (fst (build 5 (VRef 1) (VRef 6) example_store)) example_task _
            example_store_wf eq_refl eq_refl _).
  by vm_compute.
Defined.

(** ** Registration *)

Lemma native_GetFolder_Ok fault folder w w' r :
  native_GetFolder fault folder w = (w', Ok r) ->
  folder_exists_in w folder = true /\ w' = log (GetFolder folder) w /\ r = folder.
Proof.
  unfold native_GetFolder, native.
  destruct (fault (trace w) _); [discriminate|].
  change (folder_exists_in (log (GetFolder folder) w) folder)
    with (folder_exists_in w folder).
  destruct (folder_exists_in w folder); [|discriminate].
  by intros [= <- <-].
Qed.

(** X14: with a creation flag that is not a name of the creation-flag
    table, [register] fails without registering anything, yet only after
    it has ensured the folder: the folder creation and the folder fetch
    have been issued (and the folder created if it was missing), and the
    error is the [TypeError] of the flag unless the fetch itself failed. *)
Theorem register_unknown_flag (fault : list call -> call -> option Z)
    (task : Task) (logonType : value) (userId password : option string)
    (flag : string) (w : world) :
  dict_get flag TASK_CREATION_FLAGS = None ->
  let folder := str (parent (path task)) in
  let w1 := fst (native_CreateFolder fault folder w) in
  register fault task logonType userId password (VStr flag) w
  = (log (GetFolder folder) w1,
     match snd (native_GetFolder fault folder w1) with
     | Ok _ => Raise TypeError
     | Raise e => Raise e
     end)
  /\ trace (log (GetFolder folder) w1)
     = trace w ++ [CreateFolder folder; GetFolder folder]
  /\ tasks (log (GetFolder folder) w1) = tasks w.
Proof.
  intros Hflag folder w1. split; [|split].
  - unfold register, _get_and_create_folder, bind.
    rewrite suppress_CreateFolder. fold folder. fold w1.
    destruct (native_GetFolder_result fault folder w1)
      as (r & -> & [->|[hr ->]]); [|done].
    unfold lift, flag_value. cbn [reduce_or mapping_get].
    by rewrite Hflag.
  - destruct (native_CreateFolder_result fault folder w)
      as (w' & r & Hcf & _ & Htr & _).
    unfold w1. rewrite Hcf. cbn [fst trace log]. rewrite Htr.
    by rewrite <- app_assoc.
  - destruct (native_CreateFolder_result fault folder w)
      as (w' & r & Hcf & Ht & _ & _).
    unfold w1. by rewrite Hcf.
Qed.

Lemma register_unknown_flag_witness :
  register no_fault (task_at "new/C") (VStr "S4U") None None (VStr "REPLACE")
           world_foo_A_B
  = (log (GetFolder "\new")
         (fst (native_CreateFolder no_fault "\new" world_foo_A_B)),
     Raise TypeError)
  /\ bool_decide
       ("\new" ∈ folders (fst (register no_fault (task_at "new/C") (VStr "S4U")
                                 None None (VStr "REPLACE") world_foo_A_B)))
     = true.
Proof.
  split.
  - exact (proj1 (register_unknown_flag no_fault (task_at "new/C") (VStr "S4U")
                    None None "REPLACE" world_foo_A_B eq_refl)).
  - by vm_compute.
Defined.

Lemma append_empty_r (s : string) : (s ++ EmptyString)%string = s.
Proof.
  induction s as [|c s IH]; [reflexivity|].
  change (String c (s ++ EmptyString)%string = String c s). by rewrite IH.
Qed.

Lemma append_snoc (s : string) (c : ascii) (t : string) :
  ((s ++ String c EmptyString) ++ t)%string = (s ++ String c t)%string.
Proof.
  induction s as [|c' s IH]; [reflexivity|].
  change (String c' ((s ++ String c EmptyString) ++ t)%string
          = String c' (s ++ String c t)%string).
  by rewrite IH.
Qed.

Lemma folder_chain_last pre rest :
  In (pre ++ rest)%string (folder_chain pre rest).
Proof.
  revert pre. induction rest as [|c rest IH]; intros pre.
  - cbn. left. by rewrite append_empty_r.
  - cbn [folder_chain]. apply in_or_app. right.
    rewrite <- append_snoc. apply IH.
Qed.

(** Without faults, ensuring a folder succeeds and leaves the folder in
    place; it adds folders only when the folder was missing. *)
Lemma ensure_folder_no_fault (p : Path) (w : world) :
  exists w',
    _get_and_create_folder no_fault p w = (w', Ok (str p))
    /\ tasks w' = tasks w
    /\ folder_exists_in w' (str p) = true
    /\ folders w ⊆ folders w'
    /\ (folder_exists_in w (str p) = true -> folders w' = folders w)
    /\ trace w' = trace w ++ [CreateFolder (str p); GetFolder (str p)].
Proof.
  unfold _get_and_create_folder, bind. rewrite suppress_CreateFolder.
  unfold native_CreateFolder, native_GetFolder, native, no_fault.
  change (folder_exists_in (log (CreateFolder (str p)) w) (str p))
    with (folder_exists_in w (str p)).
  destruct (folder_exists_in w (str p)) eqn:Hex; cbn [fst].
  - change (folder_exists_in (log (GetFolder (str p)) (log (CreateFolder (str p)) w))
                             (str p))
      with (folder_exists_in w (str p)).
    rewrite Hex. eexists. split; [reflexivity|]. cbn.
    rewrite <- app_assoc. by repeat split.
  - set (w1 := {| folders := _; tasks := _; trace := _ |}).
    assert (Hin : folder_exists_in (log (GetFolder (str p)) w1) (str p) = true).
    { unfold folder_exists_in. apply orb_true_iff. right.
      apply bool_decide_eq_true. cbn [folders log w1].
      apply elem_of_union. left. apply elem_of_list_to_set, list_elem_of_In.
      exact (folder_chain_last EmptyString (str p)). }
    rewrite Hin. eexists. split; [reflexivity|]. cbn.
    rewrite <- app_assoc.
    split; [done|]. split; [exact Hin|]. split; [apply union_subseteq_r|].
    split; [done|done].
Qed.

Lemma register_no_fault (task : Task) (logonType : value)
    (userId password : option string) (flag : string) (flags : Z) (w : world) :
  absolute (path task) -> parent (path task) <> root -> hashable logonType ->
  flag_value [VStr flag] TASK_CREATION_FLAGS = Ok flags ->
  Z.testbit flags 0 = false ->
  match tasks w !! str (path task) with
  | Some _ => Z.testbit flags 2
  | None => Z.testbit flags 1
  end = true ->
  exists w',
    register no_fault task logonType userId password (VStr flag) w = (w', Ok tt)
    /\ tasks w' = <[str (path task) := definition task]> (tasks w)
    /\ folder_exists_in w' (str (parent (path task))) = true
    /\ folders w ⊆ folders w'
    /\ (folder_exists_in w (str (parent (path task))) = true ->
          folders w' = folders w).
Proof.
  intros Habs Hnr Hlogon Hflags Hbit0 Hbit.
  unfold register. unfold bind at 1.
  destruct (ensure_folder_no_fault (parent (path task)) w)
    as (w1 & -> & Ht1 & Hex1 & Hsub1 & Hsame1 & _).
  unfold bind at 1, lift at 1. rewrite Hflags.
  unfold bind at 1, lift at 1.
  assert (Hlg : exists logon, mapping_get LOGON_TYPES logonType = Ok logon).
  { unfold mapping_get.
    destruct logonType as [| | |s| | |l]; [eauto ..|destruct Hlogon].
    destruct (dict_get s LOGON_TYPES); eauto. }
  destruct Hlg as [logon ->].
  unfold native_RegisterTaskDefinition, native, no_fault.
  rewrite Hbit0. rewrite join_parent_name by done.
  cbn [tasks log]. rewrite <- Ht1 in Hbit |- *.
  destruct (tasks w1 !! str (path task)); rewrite Hbit;
    (eexists; split; [reflexivity|]); cbn [tasks folders log]; done.
Qed.

Lemma task_exists_no_fault (p : Path) (w : world) :
  task_exists no_fault p w
  = (log (GetTask (str p)) w, Ok (bool_decide (is_Some (tasks w !! str p)))).
Proof.
  unfold task_exists, native_GetTask, native, no_fault. cbn [tasks log].
  destruct (tasks w !! str p) eqn:Hl.
  - by rewrite bool_decide_eq_true_2.
  - rewrite bool_decide_eq_false_2; [done|]. by intros [? [=]].
Qed.

(** X15: without service faults, [register] with its default flag
    [CREATE_OR_UPDATE] always succeeds, whether the task and its folder
    exist or not; afterwards the task is stored with the given definition,
    [task_exists] and [folder_exists] answer [True], and registering the
    same task again changes neither the tasks nor the folders. *)
Theorem register_create_or_update (task : Task) (logonType : value)
    (userId password : option string) (w : world) :
  absolute (path task) -> parent (path task) <> root -> hashable logonType ->
  exists w',
    register no_fault task logonType userId password (VStr "CREATE_OR_UPDATE") w
      = (w', Ok tt)
    /\ tasks w' = <[str (path task) := definition task]> (tasks w)
    /\ snd (task_exists no_fault (path task) w') = Ok true
    /\ snd (folder_exists no_fault (parent (path task)) w') = Ok true
    /\ exists w'',
         register no_fault task logonType userId password
                  (VStr "CREATE_OR_UPDATE") w' = (w'', Ok tt)
         /\ tasks w'' = tasks w' /\ folders w'' = folders w'.
Proof.
  intros Habs Hnr Hlogon.
  destruct (register_no_fault task logonType userId password "CREATE_OR_UPDATE"
              6 w Habs Hnr Hlogon eq_refl eq_refl) as (w' & Hreg & Ht & Hex & _).
  { by destruct (tasks w !! str (path task)). }
  exists w'. split; [done|]. split; [done|]. split; [|split].
  - rewrite task_exists_no_fault. cbn [snd]. f_equal.
    apply bool_decide_eq_true_2. rewrite Ht, lookup_insert_eq. eauto.
  - unfold folder_exists, native_GetFolder, native, no_fault.
    change (folder_exists_in (log (GetFolder (str (parent (path task)))) w')
                             (str (parent (path task))))
      with (folder_exists_in w' (str (parent (path task)))).
    by rewrite Hex.
  - destruct (register_no_fault task logonType userId password
                "CREATE_OR_UPDATE" 6 w' Habs Hnr Hlogon eq_refl eq_refl)
      as (w'' & Hreg' & Ht' & _ & _ & Hsame).
    { by destruct (tasks w' !! str (path task)). }
    exists w''. split; [done|]. split; [|by apply Hsame].
    by rewrite Ht', Ht, insert_insert_eq.
Qed.

Lemma register_create_or_update_witness :
  exists w',
    register no_fault (task_at "new/C") (VStr "S4U") None None
             (VStr "CREATE_OR_UPDATE") world_foo_A_B = (w', Ok tt)
    /\ tasks w' = <[str (path (task_at "new/C")) := definition (task_at "new/C")]>
                    (tasks world_foo_A_B)
    /\ snd (task_exists no_fault (path (task_at "new/C")) w') = Ok true
    /\ snd (folder_exists no_fault (parent (path (task_at "new/C"))) w') = Ok true
    /\ exists w'',
         register no_fault (task_at "new/C") (VStr "S4U") None None
                  (VStr "CREATE_OR_UPDATE") w' = (w'', Ok tt)
         /\ tasks w'' = tasks w' /\ folders w'' = folders w'.
Proof.
  refine (register_create_or_update (task_at "new/C") (VStr "S4U") None None
            world_foo_A_B eq_refl _ I).
  discriminate.
Defined.

(** ** Reconciliation, stage by stage *)

Section SyncFacts.

Variable fault : list call -> call -> option Z.

Lemma ensure_folder_any (p : Path) (w : world) :
  exists w1 r, _get_and_create_folder fault p w = (w1, r)
    /\ tasks w1 = tasks w
    /\ folders w ⊆ folders w1
    /\ (folder_exists_in w (str p) = true -> folders w1 = folders w)
    /\ ((r = Ok (str p) /\ folder_exists_in w1 (str p) = true)
        \/ exists hresult, r = Raise (com_error hresult)).
Proof.
  unfold _get_and_create_folder, bind. rewrite suppress_CreateFolder.
  set (w0 := fst (native_CreateFolder fault (str p) w)).
  assert (H0 : tasks w0 = tasks w /\ folders w ⊆ folders w0
               /\ (folder_exists_in w (str p) = true -> folders w0 = folders w)).
  { unfold w0, native_CreateFolder, native.
    destruct (fault _ _); [done|].
    change (folder_exists_in (log (CreateFolder (str p)) w) (str p))
      with (folder_exists_in w (str p)).
    destruct (folder_exists_in w (str p)); cbn; [done|].
    split; [done|]. split; [apply union_subseteq_r|done]. }
  destruct H0 as (Ht & Hsub & Hsame).
  destruct (native_GetFolder fault (str p) w0) as [w1 r] eqn:HG.
  exists w1, r. split; [done|].
  destruct (native_GetFolder_result fault (str p) w0) as (r' & HG' & Hr).
  rewrite HG' in HG. injection HG as <- <-.
  split; [done|]. split; [done|]. split; [done|].
  destruct Hr as [->|[hr ->]]; [left|right; eauto].
  split; [done|]. by apply native_GetFolder_Ok in HG' as [? _].
Qed.

Lemma native_Register_any folder nm def flags uid pw logon w w' r :
  native_RegisterTaskDefinition fault folder nm def flags uid pw logon w = (w', r) ->
  folders w' = folders w
  /\ forall k, k <> join folder nm -> tasks w' !! k = tasks w !! k.
Proof.
  unfold native_RegisterTaskDefinition, native.
  destruct (fault _ _); [by intros [= <- _]|].
  cbn [tasks log].
  destruct (Z.testbit flags 0); [by intros [= <- _]|].
  destruct (tasks w !! join folder nm);
    [destruct (Z.testbit flags 2)|destruct (Z.testbit flags 1)];
    intros [= <- _]; (split; [done|]); intros k Hk; cbn [tasks log]; try done;
    by rewrite lookup_insert_ne.
Qed.

Lemma register_any task lt uid pw flag w w' r :
  register fault task lt uid pw flag w = (w', r) ->
  folders w ⊆ folders w'
  /\ (folder_exists_in w (str (parent (path task))) = true -> folders w' = folders w)
  /\ forall k, k <> join (str (parent (path task))) (name (path task)) ->
       tasks w' !! k = tasks w !! k.
Proof.
  unfold register. unfold bind at 1.
  destruct (ensure_folder_any (parent (path task)) w)
    as (w1 & r1 & -> & Ht & Hsub & Hsame & Hr).
  destruct Hr as [[-> _]|[e ->]]; [|by intros [= <- _]; rewrite Ht].
  unfold bind at 1, lift at 1.
  destruct (flag_value [flag] TASK_CREATION_FLAGS) as [flags|e];
    [|by intros [= <- _]; rewrite Ht].
  unfold bind at 1, lift at 1.
  destruct (mapping_get LOGON_TYPES lt) as [logon|e];
    [|by intros [= <- _]; rewrite Ht].
  intros HR. apply native_Register_any in HR as [Hf Hl].
  split; [by rewrite Hf|]. split; [intros Hex; by rewrite Hf, Hsame|].
  intros k Hk. by rewrite Hl, Ht.
Qed.

Lemma folder_exists_in_ext (w w' : world) (folder : string) :
  folders w' = folders w -> folder_exists_in w' folder = folder_exists_in w folder.
Proof. unfold folder_exists_in. by intros ->. Qed.

(** The registration pass of [sync], whatever its outcome. *)
Lemma register_pass_any lt uid pw (ts : list Task) (folder : Path) :
  forall w w' r,
  for_each ts (fun task =>
      found <~ task_exists fault (path task) ;
      register fault task lt uid pw
               (VStr (if found then "UPDATE" else "CREATE"))) w = (w', r) ->
  (forall t, In t ts -> absolute (path t) /\ parent (path t) = folder) ->
  folder <> root ->
  folders w ⊆ folders w'
  /\ (folder_exists_in w (str folder) = true -> folders w' = folders w)
  /\ forall k, ~ In k (map (fun t => str (path t)) ts) ->
       tasks w' !! k = tasks w !! k.
Proof.
  induction ts as [|t ts IH]; intros w w' r Hrun Hwf Hnr.
  { injection Hrun as <- _. done. }
  rewrite for_each_cons in Hrun. unfold bind at 1 in Hrun.
  destruct (task_exists_result fault (path t) w) as [found Hte].
  rewrite Hte in Hrun.
  destruct (register fault t lt uid pw _ _) as [w1 r1] eqn:Hreg.
  apply register_any in Hreg as (Hsub & Hsame & Hl).
  destruct (Hwf t (or_introl eq_refl)) as [Habs Hpar].
  rewrite Hpar in Hsame.
  rewrite join_parent_name in Hl by (by rewrite ?Hpar).
  cbn [tasks folders log] in Hsub, Hl.
  change (folder_exists_in (log (GetTask (str (path t))) w) (str folder))
    with (folder_exists_in w (str folder)) in Hsame.
  cbn [folders log] in Hsame.
  assert (Hstep : forall k, ~ In k (map (fun t => str (path t)) (t :: ts)) ->
                    tasks w1 !! k = tasks w !! k).
  { intros k Hk. apply Hl. intros ->. apply Hk. by left. }
  destruct r1 as [[]|e].
  - apply IH in Hrun as (Hsub' & Hsame' & Hl');
      [|intros t' Ht'; apply Hwf; by right|done].
    split; [by etrans|]. split.
    + intros Hex. specialize (Hsame Hex).
      rewrite <- (folder_exists_in_ext w w1 (str folder) Hsame) in Hex.
      by rewrite (Hsame' Hex).
    + intros k Hk. rewrite Hl'; [by apply Hstep|].
      intros Hin. apply Hk. by right.
  - injection Hrun as <- _. done.
Qed.

Lemma native_DeleteTask_any task w w' r :
  native_DeleteTask fault task w = (w', r) ->
  folders w' = folders w
  /\ forall k, k <> task -> tasks w' !! k = tasks w !! k.
Proof.
  unfold native_DeleteTask, native.
  destruct (fault _ _); [by intros [= <- _]|].
  cbn [tasks log].
  destruct (tasks w !! task); intros [= <- _]; (split; [done|]);
    intros k Hk; cbn [tasks log]; try done.
  by rewrite lookup_delete_ne.
Qed.

(** The deletion pass of [sync], whatever its outcome. *)
Lemma delete_pass_any (ds : list Path) :
  forall w w' r,
  for_each ds (delete_task fault) w = (w', r) ->
  folders w' = folders w
  /\ forall k, ~ In k (map str ds) -> tasks w' !! k = tasks w !! k.
Proof.
  induction ds as [|p ds IH]; intros w w' r Hrun.
  { injection Hrun as <- _. done. }
  rewrite for_each_cons in Hrun.
  destruct (delete_task fault p w) as [w1 r1] eqn:Hdel.
  unfold delete_task in Hdel. apply native_DeleteTask_any in Hdel as [Hf Hl].
  destruct r1 as [[]|e].
  - apply IH in Hrun as [Hf' Hl']. split; [by rewrite Hf'|].
    intros k Hk. rewrite Hl'.
    + apply Hl. intros ->. apply Hk. by left.
    + intros Hin. apply Hk. by right.
  - injection Hrun as <- _. split; [done|].
    intros k Hk. apply Hl. intros ->. apply Hk. by left.
Qed.

Lemma get_tasks_any folder w w' r :
  get_tasks fault folder w = (w', r) ->
  folders w' = folders w /\ tasks w' = tasks w
  /\ forall live, r = Ok live ->
       live = tasks_of w (str folder) /\ folder_exists_in w (str folder) = true.
Proof.
  unfold get_tasks, bind.
  destruct (native_GetFolder fault (str folder) w) as [w1 [f|e]] eqn:HG.
  - apply native_GetFolder_Ok in HG as (Hex & -> & ->).
    unfold native_GetTasks, native.
    destruct (fault _ _); intros [= <- <-]; (split; [done|]); (split; [done|]);
      intros live [= <-]. by split.
  - destruct (native_GetFolder_result fault (str folder) w) as (r' & HG' & _).
    rewrite HG' in HG. injection HG as <- _. intros [= <- <-].
    split; [done|]. split; [done|]. intros live [=].
Qed.

Lemma native_Register_dom folder nm def flags uid pw logon w w' r :
  native_RegisterTaskDefinition fault folder nm def flags uid pw logon w = (w', r) ->
  dom (tasks w) ⊆ dom (tasks w')
  /\ forall e, r = Raise e -> exists hresult, e = com_error hresult.
Proof.
  unfold native_RegisterTaskDefinition, native.
  destruct (fault _ _); [intros [= <- <-]; split; [done|intros e [= <-]; eauto]|].
  cbn [tasks log].
  destruct (Z.testbit flags 0); [intros [= <- <-]; by split|].
  destruct (tasks w !! join folder nm);
    [destruct (Z.testbit flags 2)|destruct (Z.testbit flags 1)];
    intros [= <- <-]; cbn [tasks log];
    (split; [|by (intros e [= <-]; eauto) || done]);
    try done; rewrite dom_insert; apply union_subseteq_r.
Qed.

(** What a registration of [sync] can raise, and that it removes no
    task. *)
Lemma register_dom (found : bool) task lt uid pw w w' r :
  register fault task lt uid pw (VStr (if found then "UPDATE" else "CREATE")) w
    = (w', r) ->
  dom (tasks w) ⊆ dom (tasks w')
  /\ forall e, r = Raise e ->
       (e = TypeError /\ ~ hashable lt) \/ exists hresult, e = com_error hresult.
Proof.
  unfold register. unfold bind at 1.
  destruct (ensure_folder_any (parent (path task)) w)
    as (w1 & r1 & -> & Ht & _ & _ & Hr).
  destruct Hr as [[-> _]|[hr ->]];
    [|intros [= <- <-]; rewrite Ht; split; [done|intros e [= <-]; eauto]].
  unfold bind at 1, lift at 1.
  assert (Hfl : exists flags,
    flag_value [VStr (if found then "UPDATE" else "CREATE")] TASK_CREATION_FLAGS
    = Ok flags) by (destruct found; eexists; reflexivity).
  destruct Hfl as [flags ->].
  unfold bind at 1, lift at 1.
  destruct (mapping_get LOGON_TYPES lt) as [logon|e'] eqn:Hm.
  - intros HR. apply native_Register_dom in HR as [Hd He].
    rewrite <- Ht. split; [done|]. intros e ->. right. by apply He.
  - intros [= <- <-]. rewrite Ht. split; [done|]. intros e [= <-]. left.
    unfold mapping_get in Hm.
    destruct lt as [| | |s| | |l]; try discriminate.
    + destruct (dict_get s LOGON_TYPES); discriminate.
    + injection Hm as <-. split; [done|]. intros [].
Qed.

Lemma register_pass_dom lt uid pw (ts : list Task) :
  forall w w' r,
  for_each ts (fun task =>
      found <~ task_exists fault (path task) ;
      register fault task lt uid pw
               (VStr (if found then "UPDATE" else "CREATE"))) w = (w', r) ->
  dom (tasks w) ⊆ dom (tasks w')
  /\ forall e, r = Raise e ->
       (e = TypeError /\ ~ hashable lt) \/ exists hresult, e = com_error hresult.
Proof.
  induction ts as [|t ts IH]; intros w w' r Hrun.
  { injection Hrun as <- <-. done. }
  rewrite for_each_cons in Hrun. unfold bind at 1 in Hrun.
  destruct (task_exists_result fault (path t) w) as [found Hte].
  rewrite Hte in Hrun.
  destruct (register fault t lt uid pw _ _) as [w1 r1] eqn:Hreg.
  apply register_dom in Hreg as [Hd He]. cbn [tasks log] in Hd.
  destruct r1 as [[]|e1].
  - apply IH in Hrun as [Hd' He']. split; [by etrans|done].
  - injection Hrun as <- <-. split; [done|]. intros e [= <-]. by apply He.
Qed.

Lemma get_tasks_raises folder w w' e :
  get_tasks fault folder w = (w', Raise e) -> exists hresult, e = com_error hresult.
Proof.
  unfold get_tasks, bind.
  destruct (native_GetFolder_result fault (str folder) w)
    as (r & -> & [->|[hr ->]]); [|intros [= _ <-]; eauto].
  unfold native_GetTasks, native.
  destruct (fault _ _); [|discriminate]. intros [= _ <-]. eauto.
Qed.

Lemma delete_pass_raises (ds : list Path) :
  forall w w' e,
  for_each ds (delete_task fault) w = (w', Raise e) ->
  exists hresult, e = com_error hresult.
Proof.
  induction ds as [|p ds IH]; intros w w' e; [discriminate|].
  rewrite for_each_cons.
  destruct (delete_task fault p w) as [w1 [[]|e1]] eqn:Hdel; [by apply IH|].
  intros [= _ <-]. revert Hdel.
  unfold delete_task, native_DeleteTask, native.
  destruct (fault _ _); [intros [= _ <-]; eauto|].
  cbn [tasks log]. destruct (tasks w !! str p); [discriminate|].
  intros [= _ <-]. eauto.
Qed.

End SyncFacts.

Lemma Path_eta (p : Path) : Path_of (str p) = p.
Proof. by destruct p. Qed.

Lemma same_parent (tasks : list Task) :
  ~ 1 < size (list_to_set (map (fun task => parent (path task)) tasks) : gset Path) ->
  forall t1 t2, In t1 tasks -> In t2 tasks -> parent (path t1) = parent (path t2).
Proof.
  intros Hsz t1 t2 H1 H2.
  destruct (decide (parent (path t1) = parent (path t2))) as [|Hne]; [done|].
  destruct Hsz. by apply (two_parents_size tasks t1 t2).
Qed.



Lemma sync_Ok_inv fault set_order (ts : list Task) lt uid pw w w' :
  sync fault set_order ts lt uid pw w = (w', Ok tt) ->
  exists folder w1 w2,
    ts <> [] /\ folder <> root
    /\ (forall t, In t ts -> parent (path t) = folder)
    /\ for_each ts (fun task =>
         found <~ task_exists fault (path task) ;
         register fault task lt uid pw
                  (VStr (if found then "UPDATE" else "CREATE"))) w = (w1, Ok tt)
    /\ get_tasks fault folder w1 = (w2, Ok (tasks_of w1 (str folder)))
    /\ for_each (set_order (live_tasks w1 folder ∖ list_to_set (map path ts)))
                (delete_task fault) w2 = (w', Ok tt).
Proof.
  unfold sync.
  destruct (decide _) as [_|Hsz]; [discriminate|].
  pose proof (same_parent ts Hsz) as Hsame.
  destruct ts as [|task0 ts'] eqn:Hts; [discriminate|]. rewrite <- Hts in *.
  assert (H0 : In task0 ts) by (rewrite Hts; by left).
  destruct (decide (parent (path task0) = root)) as [_|Hnr]; [discriminate|].
  unfold bind at 1.
  destruct (for_each ts _ w) as [w1 [[]|e]] eqn:Hpass; [|discriminate].
  unfold bind at 1.
  destruct (get_tasks fault _ w1) as [w2 [live|e]] eqn:Hget; [|discriminate].
  pose proof (get_tasks_Ok _ _ _ _ _ Hget) as (_ & -> & _).
  intros Hdel. exists (parent (path task0)), w1, w2.
  split; [by rewrite Hts|]. split; [done|].
  split; [intros t Ht; by apply Hsame|]. done.
Qed.

Lemma register_pass_registered fault lt uid pw (ts : list Task) :
  forall w w',
  for_each ts (fun task =>
      found <~ task_exists fault (path task) ;
      register fault task lt uid pw
               (VStr (if found then "UPDATE" else "CREATE"))) w = (w', Ok tt) ->
  (forall t, In t ts -> absolute (path t) /\ parent (path t) <> root) ->
  tasks w' = registered ts (tasks w).
Proof.
  induction ts as [|t ts IH]; intros w w' Hrun Hwf.
  { by injection Hrun as <-. }
  rewrite for_each_cons in Hrun. unfold bind at 1 in Hrun.
  destruct (task_exists_result fault (path t) w) as [found Hte].
  rewrite Hte in Hrun.
  destruct (register fault t lt uid pw _ _) as [w1 [[]|e]] eqn:Hreg;
    [|discriminate].
  apply register_Ok in Hreg as [Ht1 _].
  destruct (Hwf t (or_introl eq_refl)) as [Habs Hnr].
  rewrite join_parent_name in Ht1 by done. cbn [tasks log] in Ht1.
  apply IH in Hrun; [|intros t' Ht'; apply Hwf; by right].
  rewrite Hrun, Ht1. reflexivity.
Qed.

Lemma registered_lookup_other (ts : list Task) (m : gmap string comobj) k :
  ~ In k (map (fun t => str (path t)) ts) -> registered ts m !! k = m !! k.
Proof.
  revert m. induction ts as [|t ts IH]; intros m Hk; [done|].
  change (registered (t :: ts) m)
    with (registered ts (<[str (path t) := definition t]> m)).
  rewrite IH by (intros Hin; apply Hk; by right).
  apply lookup_insert_ne. intros Heq. apply Hk. by left.
Qed.

Lemma registered_lookup_last (ts1 ts2 : list Task) (t : Task)
    (m : gmap string comobj) :
  (forall t', In t' ts2 -> path t' <> path t) ->
  registered (ts1 ++ t :: ts2) m !! str (path t) = Some (definition t).
Proof.
  intros Hlater. unfold registered. rewrite fold_left_app. cbn [fold_left].
  fold (registered ts2 (<[str (path t) := definition t]>
                          (fold_left (fun m t => <[str (path t) := definition t]> m)
                                     ts1 m))).
  rewrite registered_lookup_other; [apply lookup_insert_eq|].
  rewrite in_map_iff. intros (t' & Heq & Ht').
  apply (Hlater t' Ht'). destruct (path t'), (path t). cbn in Heq. by rewrite Heq.
Qed.

Lemma registered_lookup_in (ts : list Task) (m m' : gmap string comobj) k :
  In k (map (fun t => str (path t)) ts) ->
  registered ts m !! k = registered ts m' !! k.
Proof.
  revert m m'. induction ts as [|t ts IH]; intros m m' Hk; [done|].
  change (registered (t :: ts) m)
    with (registered ts (<[str (path t) := definition t]> m)).
  change (registered (t :: ts) m')
    with (registered ts (<[str (path t) := definition t]> m')).
  destruct (In_dec string_dec k (map (fun t => str (path t)) ts)) as [Hin|Hnin].
  - by apply IH.
  - rewrite !registered_lookup_other by done.
    destruct Hk as [<-|Hk]; [|done]. by rewrite !lookup_insert_eq.
Qed.

Lemma registered_fixed (ts : list Task) (m m' : gmap string comobj) :
  (forall k, In k (map (fun t => str (path t)) ts) ->
     m' !! k = registered ts m !! k) ->
  registered ts m' = m'.
Proof.
  intros Hag. apply map_eq. intros k.
  destruct (In_dec string_dec k (map (fun t => str (path t)) ts)) as [Hin|Hnin].
  - rewrite (Hag k Hin). by apply registered_lookup_in.
  - by apply registered_lookup_other.
Qed.

(** A stale path is none of the listed paths. *)
Lemma stale_not_listed (set_order : gset Path -> list Path) (ts : list Task)
    (X : gset Path) (k : string) :
  visits_elements set_order ->
  In k (map (fun t => str (path t)) ts) ->
  ~ In k (map str (set_order (X ∖ list_to_set (map path ts)))).
Proof.
  intros Hord Hk. rewrite in_map_iff. intros (p & <- & Hp).
  apply Hord, elem_of_difference in Hp as [_ Hp]. apply Hp.
  rewrite elem_of_list_to_set, list_elem_of_In.
  apply in_map_iff in Hk as (t & Heq & Ht). apply in_map_iff. exists t.
  split; [|done]. destruct (path t), p. cbn in Heq. by rewrite Heq.
Qed.

(** X17: when [sync] completes without error, every listed task is stored
    under its path with its own definition, provided no later task of the
    list has the same path: among tasks of one path the last one wins. *)
Theorem sync_last_definition_wins (fault : list call -> call -> option Z)
    (set_order : gset Path -> list Path) (ts : list Task)
    (logonType : value) (userId password : option string) (w w' : world)
    (ts1 ts2 : list Task) (t : Task) :
  visits_elements set_order ->
  (forall t, In t ts -> absolute (path t)) ->
  sync fault set_order ts logonType userId password w = (w', Ok tt) ->
  ts = ts1 ++ t :: ts2 ->
  (forall t', In t' ts2 -> path t' <> path t) ->
  tasks w' !! str (path t) = Some (definition t).
Proof.
  intros Hord Habs Hsync Hts Hlater.
  apply sync_Ok_inv in Hsync
    as (folder & w1 & w2 & _ & Hnr & Hpar & Hpass & Hget & Hdel).
  apply register_pass_registered in Hpass;
    [|intros t' Ht'; split; [by apply Habs|by rewrite (Hpar t' Ht')]].
  apply get_tasks_any in Hget as (_ & Ht2 & _).
  apply delete_pass_any in Hdel as [_ Hl3].
  rewrite Hl3, Ht2, Hpass.
  - rewrite Hts. by apply registered_lookup_last.
  - apply stale_not_listed; [done|]. apply in_map_iff. exists t.
    split; [done|]. rewrite Hts. apply in_or_app. right. by left.
Qed.

Lemma sync_last_definition_wins_witness :
  tasks (fst (sync no_fault elements [task_at "foo/C"; task_at "foo/A"]
                   (VStr "S4U") None None world_foo_A_B))
    !! str (path (task_at "foo/A"))
  = Some (definition (task_at "foo/A")).
Proof.
  apply (sync_last_definition_wins no_fault elements
           [task_at "foo/C"; task_at "foo/A"] (VStr "S4U") None None
           world_foo_A_B _ [task_at "foo/C"] [] (task_at "foo/A")).
  - intros X p. by rewrite <- list_elem_of_In, elem_of_elements.
  - intros t [<-|[<-|[]]]; reflexivity.
  - by vm_compute.
  - reflexivity.
  - intros t' [].
Defined.

Lemma folder_exists_in_mono (w w' : world) (folder : string) :
  folders w ⊆ folders w' ->
  folder_exists_in w folder = true -> folder_exists_in w' folder = true.
Proof.
  unfold folder_exists_in. intros Hsub.
  rewrite !orb_true_iff, !bool_decide_eq_true. intros [?|Hin]; [by left|].
  right. by apply Hsub.
Qed.

(** Without faults the registration pass of [sync] succeeds. *)
Lemma register_pass_no_fault lt uid pw (ts : list Task) (folder : Path) :
  hashable lt -> folder <> root ->
  forall w,
  (forall t, In t ts -> absolute (path t) /\ parent (path t) = folder) ->
  exists w',
    for_each ts (fun task =>
        found <~ task_exists no_fault (path task) ;
        register no_fault task lt uid pw
                 (VStr (if found then "UPDATE" else "CREATE"))) w = (w', Ok tt)
    /\ folders w ⊆ folders w'
    /\ (ts <> [] -> folder_exists_in w' (str folder) = true).
Proof.
  intros Hlt Hnr. induction ts as [|t ts IH]; intros w Hwf.
  { exists w. by repeat split. }
  destruct (Hwf t (or_introl eq_refl)) as [Habs Hpar].
  rewrite for_each_cons. unfold bind at 1. rewrite task_exists_no_fault.
  set (w0 := log (GetTask (str (path t))) w).
  assert (Hreg : exists w1,
    register no_fault t lt uid pw
      (VStr (if bool_decide (is_Some (tasks w !! str (path t)))
             then "UPDATE" else "CREATE")) w0 = (w1, Ok tt)
    /\ folder_exists_in w1 (str folder) = true /\ folders w ⊆ folders w1).
  { destruct (tasks w !! str (path t)) as [d|] eqn:Hl.
    - rewrite bool_decide_eq_true_2 by eauto.
      destruct (register_no_fault t lt uid pw "UPDATE" 4 w0)
        as (w1 & Hr & _ & Hex & Hsub & _);
        [done|by rewrite Hpar|done|reflexivity|reflexivity| |].
      + unfold w0. cbn [tasks log]. by rewrite Hl.
      + exists w1. rewrite <- Hpar. done.
    - rewrite bool_decide_eq_false_2 by (by intros [? [=]]).
      destruct (register_no_fault t lt uid pw "CREATE" 2 w0)
        as (w1 & Hr & _ & Hex & Hsub & _);
        [done|by rewrite Hpar|done|reflexivity|reflexivity| |].
      + unfold w0. cbn [tasks log]. by rewrite Hl.
      + exists w1. rewrite <- Hpar. done. }
  destruct Hreg as (w1 & -> & Hex & Hsub).
  destruct (IH w1) as (w' & Hrun & Hsub' & _).
  { intros t' Ht'. apply Hwf. by right. }
  exists w'. split; [done|]. split; [by etrans|].
  intros _. by apply (folder_exists_in_mono w1).
Qed.

(** Without faults, deleting distinct registered tasks succeeds. *)
Lemma delete_pass_no_fault (ds : list Path) :
  NoDup ds ->
  forall w, (forall p, In p ds -> is_Some (tasks w !! str p)) ->
  exists w', for_each ds (delete_task no_fault) w = (w', Ok tt).
Proof.
  induction 1 as [|p ds Hnin Hnd IH]; intros w Hreg.
  { by exists w. }
  rewrite for_each_cons.
  unfold delete_task at 1, native_DeleteTask, native, no_fault.
  cbn [tasks log].
  destruct (Hreg p (or_introl eq_refl)) as [d ->].
  apply IH. intros p' Hp'. cbn [tasks].
  rewrite lookup_delete_ne; [apply Hreg; by right|].
  intros Heq. apply Hnin. apply list_elem_of_In.
  destruct p, p'. cbn in Heq. by rewrite Heq.
Qed.

(** X18: without service faults, [sync] of a non-empty list of tasks that
    share one non-root folder completes without error, provided the loop
    over the set of stale paths visits each of its elements once. *)
Theorem sync_succeeds_without_faults (set_order : gset Path -> list Path)
    (ts : list Task) (logonType : value) (userId password : option string)
    (folder : Path) (w : world) :
  visits_elements set_order -> visits_once set_order ->
  ts <> [] ->
  (forall t, In t ts -> absolute (path t) /\ parent (path t) = folder) ->
  folder <> root ->
  hashable logonType ->
  exists w', sync no_fault set_order ts logonType userId password w = (w', Ok tt).
Proof.
  intros Hord Honce Hne Hwf Hnr Hlt. unfold sync.
  destruct (decide _) as [Hsz|_].
  { apply (one_parent_size ts folder) in Hsz; [done|].
    intros t Ht. by apply Hwf. }
  destruct ts as [|task0 ts'] eqn:Hts; [done|]. rewrite <- Hts in *.
  assert (Hf : parent (path task0) = folder).
  { apply Hwf. rewrite Hts. by left. }
  rewrite Hf. destruct (decide (folder = root)) as [|_]; [done|].
  unfold bind at 1.
  destruct (register_pass_no_fault logonType userId password ts folder Hlt Hnr
              w Hwf) as (w1 & -> & _ & Hex).
  specialize (Hex Hne).
  unfold bind at 1, get_tasks, bind, native_GetFolder, native, no_fault.
  change (folder_exists_in (log (GetFolder (str folder)) w1) (str folder))
    with (folder_exists_in w1 (str folder)).
  rewrite Hex. unfold native_GetTasks, native.
  apply delete_pass_no_fault; [apply Honce|].
  intros p Hp. apply Hord, elem_of_difference in Hp as [Hp _].
  apply elem_of_list_to_set, list_elem_of_In, in_map_iff in Hp as (k & <- & Hk).
  cbn [str tasks log]. unfold tasks_of in Hk.
  apply filter_In in Hk as [Hk _].
  apply list_elem_of_In, elem_of_elements, elem_of_dom in Hk. exact Hk.
Qed.

Lemma sync_succeeds_without_faults_witness :
  exists w',
    sync no_fault elements [task_at "foo/C"; task_at "foo/A"] (VStr "S4U")
         None None world_foo_A_B = (w', Ok tt).
Proof.
  apply (sync_succeeds_without_faults elements
           [task_at "foo/C"; task_at "foo/A"] (VStr "S4U") None None
           (Path_of "\foo") world_foo_A_B).
  - intros X p. by rewrite <- list_elem_of_In, elem_of_elements.
  - intros X. apply NoDup_elements.
  - discriminate.
  - intros t [<-|[<-|[]]]; by split.
  - discriminate.
  - exact I.
Defined.

Lemma live_tasks_ext (w w' : world) (folder : Path) :
  tasks w' = tasks w -> live_tasks w' folder = live_tasks w folder.
Proof. unfold live_tasks, tasks_of. by intros ->. Qed.

(** X19: a [sync] that follows a completed [sync] of the same list, if it
    completes too, changes neither the tasks nor the folders of the service
    and deletes nothing, whatever errors the service raised on the
    way. *)
Theorem sync_twice (fault fault' : list call -> call -> option Z)
    (set_order set_order' : gset Path -> list Path) (ts : list Task)
    (logonType : value) (userId password : option string)
    (w w1 w2 : world) :
  visits_elements set_order -> visits_elements set_order' ->
  (forall t, In t ts -> absolute (path t)) ->
  sync fault set_order ts logonType userId password w = (w1, Ok tt) ->
  sync fault' set_order' ts logonType userId password w1 = (w2, Ok tt) ->
  tasks w2 = tasks w1 /\ folders w2 = folders w1
  /\ exists calls, trace w2 = trace w1 ++ calls
       /\ Forall (fun c => is_delete c = false) calls.
Proof.
  intros Hord Hord' Habs Hfirst Hsecond.
  apply sync_Ok_inv in Hfirst
    as (folder & wa & wb & Hne & Hnr & Hpar & Hpass & Hget & Hdel).
  assert (Hwf : forall t, In t ts -> absolute (path t) /\ parent (path t) <> root).
  { intros t Ht. split; [by apply Habs|by rewrite (Hpar t Ht)]. }
  apply register_pass_registered in Hpass; [|done].
  apply get_tasks_any in Hget as (Hfb & Htb & Hlive).
  destruct (Hlive _ eq_refl) as [_ Hex].
  pose proof (delete_pass _ _ _ _ Hdel) as [Hdom _].
  apply delete_pass_any in Hdel as [Hf1 Hl1].
  assert (Hex1 : folder_exists_in w1 (str folder) = true).
  { rewrite <- Hex. apply folder_exists_in_ext. by rewrite Hf1. }
  assert (Hkeys : forall k, In k (map (fun t => str (path t)) ts) ->
                    tasks w1 !! k = registered ts (tasks w) !! k).
  { intros k Hk. rewrite Hl1, Htb, Hpass; [done|]. by apply stale_not_listed. }
  assert (Hclean : forall p, p ∈ live_tasks w1 folder ->
                     p ∈ (list_to_set (map path ts) : gset Path)).
  { intros p Hp. apply elem_of_live_tasks in Hp as [Hp Hpp].
    rewrite Hdom in Hp. apply elem_of_difference in Hp as [Hin Hnot].
    destruct (decide (p ∈ (list_to_set (map path ts) : gset Path)))
      as [|Hnw]; [done|].
    destruct Hnot. apply elem_of_list_to_set, list_elem_of_In, in_map, Hord.
    apply elem_of_difference. split; [|done].
    apply elem_of_live_tasks. split; [|done]. by rewrite <- Htb. }
  apply sync_Ok_inv in Hsecond
    as (folder' & wc & wd & _ & _ & Hpar' & Hpass' & Hget' & Hdel').
  assert (folder' = folder) as ->.
  { destruct ts as [|t ts']; [done|].
    by rewrite <- (Hpar t (or_introl eq_refl)), <- (Hpar' t (or_introl eq_refl)). }
  pose proof (register_pass_registered _ _ _ _ _ _ _ Hpass' Hwf) as Htc.
  rewrite (registered_fixed ts (tasks w) (tasks w1) Hkeys) in Htc.
  pose proof (register_pass _ _ _ _ _ _ _ Hpass' Hwf)
    as (_ & _ & calls & Htr & Hnd & _).
  apply (register_pass_any fault' logonType userId password ts folder)
    in Hpass' as (_ & Hfc & _);
    [|intros t Ht; split; [by apply Habs|by apply Hpar]|done].
  specialize (Hfc Hex1).
  pose proof (get_tasks_Ok _ _ _ _ _ Hget') as (Htd & _ & Htrd).
  apply get_tasks_any in Hget' as (Hfd & _ & _).
  destruct (set_order' (live_tasks wc folder ∖ list_to_set (map path ts)))
    as [|p ds] eqn:Hds.
  - injection Hdel' as <-. split; [by rewrite Htd|].
    split; [by rewrite Hfd|].
    exists (calls ++ [GetFolder (str folder); GetTasks (str folder)]).
    split; [by rewrite Htrd, Htr, app_assoc|].
    apply Forall_app. split; [done|]. by repeat constructor.
  - assert (Hp : In p (set_order' (live_tasks wc folder
                                     ∖ list_to_set (map path ts)))).
    { rewrite Hds. by left. }
    apply Hord', elem_of_difference in Hp as [Hp Hnw]. destruct Hnw.
    apply Hclean. by rewrite <- (live_tasks_ext w1 wc folder Htc).
Qed.

Lemma sync_twice_witness :
  let w1 := fst (sync deny_folder_creation elements [task_at "foo/C"]
                      (VStr "S4U") None None world_foo_A_B) in
  let w2 := fst (sync no_fault elements [task_at "foo/C"]
                      (VStr "S4U") None None w1) in
  tasks w2 = tasks w1 /\ folders w2 = folders w1
  /\ exists calls, trace w2 = trace w1 ++ calls
       /\ Forall (fun c => is_delete c = false) calls.
Proof.
  apply (sync_twice deny_folder_creation no_fault elements elements
           [task_at "foo/C"] (VStr "S4U") None None world_foo_A_B).
  - intros X p. by rewrite <- list_elem_of_In, elem_of_elements.
  - intros X p. by rewrite <- list_elem_of_In, elem_of_elements.
  - intros t [<-|[]]. reflexivity.
  - by vm_compute.
  - by vm_compute.
Defined.

(** X20: what [sync] can raise.  [IndexError] means the list is empty and
    [AttributeError] that the validation rejected a non-empty list, both
    before any change; [TypeError] means the logon type is not hashable;
    anything else is an error of the service.  Conversely the empty list
    always raises [IndexError], whatever the service would answer. *)
Theorem sync_raises_only (fault : list call -> call -> option Z)
    (set_order : gset Path -> list Path) (ts : list Task)
    (logonType : value) (userId password : option string)
    (w w' : world) (e : exn) :
  sync fault set_order ts logonType userId password w = (w', Raise e) ->
  match e with
  | IndexError => ts = [] /\ w' = w
  | AttributeError _ => ts <> [] /\ w' = w
  | TypeError => ~ hashable logonType
  | com_error _ => True
  | _ => False
  end
  /\ forall w0, sync fault set_order [] logonType userId password w0
                = (w0, Raise IndexError).
Proof.
  intros Hrun. split; [|done]. revert Hrun. unfold sync.
  destruct (decide _) as [Hsz|_].
  { intros [= <- <-]. split; [|done]. intros ->. cbn in Hsz.
    rewrite size_empty in Hsz. lia. }
  destruct ts as [|task0 ts'] eqn:Hts; [by intros [= <- <-]|].
  rewrite <- Hts in *.
  destruct (decide _) as [_|Hnr]; [intros [= <- <-]; by rewrite Hts|].
  unfold bind at 1.
  destruct (for_each ts _ w) as [w1 r1] eqn:Hpass.
  apply register_pass_dom in Hpass as [_ He].
  destruct r1 as [[]|e1].
  2:{ intros [= _ <-]. by destruct (He e1 eq_refl) as [[-> ?]|[hr ->]]. }
  unfold bind at 1.
  destruct (get_tasks fault _ w1) as [w2 [live|e2]] eqn:Hget.
  - intros Hdel. by apply delete_pass_raises in Hdel as [hr ->].
  - intros [= _ <-]. by apply get_tasks_raises in Hget as [hr ->].
Qed.

Lemma sync_raises_only_witness :
  ([] : list Task) = [] /\ world_foo_A_B = world_foo_A_B.
Proof.
  exact (proj1 (sync_raises_only deny_folder_creation elements []
                  (VStr "S4U") None None world_foo_A_B world_foo_A_B
                  IndexError eq_refl)).
Defined.

(** X21: however [sync] ends, it has removed no task of the list; and if
    it has removed any task at all, every task of the list is registered:
    deletions start only when all registrations are done. *)
Theorem sync_deletes_last (fault : list call -> call -> option Z)
    (set_order : gset Path -> list Path) (ts : list Task)
    (logonType : value) (userId password : option string)
    (w w' : world) (r : outcome unit) :
  visits_elements set_order ->
  (forall t, In t ts -> absolute (path t)) ->
  sync fault set_order ts logonType userId password w = (w', r) ->
  (forall t, In t ts -> str (path t) ∈ dom (tasks w) ->
     str (path t) ∈ dom (tasks w'))
  /\ (dom (tasks w) ⊆ dom (tasks w')
      \/ forall t, In t ts -> str (path t) ∈ dom (tasks w')).
Proof.
  intros Hord Habs. unfold sync.
  destruct (decide _) as [_|Hsz]; [intros [= <- _]; split; [done|by left]|].
  pose proof (same_parent ts Hsz) as Hsame.
  destruct ts as [|task0 ts'] eqn:Hts; [intros [= <- _]; split; [done|by left]|].
  rewrite <- Hts in *.
  assert (H0 : In task0 ts) by (rewrite Hts; by left).
  destruct (decide _) as [_|Hnr]; [intros [= <- _]; split; [done|by left]|].
  unfold bind at 1.
  destruct (for_each ts _ w) as [w1 r1] eqn:Hpass.
  pose proof (register_pass_dom _ _ _ _ _ _ _ _ Hpass) as [Hd1 _].
  destruct r1 as [[]|e1]; [|intros [= <- _]; split; [intros t _; apply Hd1|by left]].
  apply register_pass in Hpass as (_ & Hreg & _).
  2:{ intros t Ht. split; [by apply Habs|]. by rewrite (Hsame t task0 Ht H0). }
  unfold bind at 1.
  destruct (get_tasks fault _ w1) as [w2 r2] eqn:Hget.
  apply get_tasks_any in Hget as (_ & Ht2 & Hlive).
  destruct r2 as [live|e2].
  2:{ intros [= <- _]. rewrite Ht2. split; [intros t Ht _; by apply Hreg|by right]. }
  destruct (Hlive live eq_refl) as [-> _].
  intros Hdel. apply delete_pass_any in Hdel as [_ Hl3].
  assert (Hall : forall t, In t ts -> str (path t) ∈ dom (tasks w')).
  { intros t Ht. apply elem_of_dom. rewrite Hl3, Ht2.
    - apply elem_of_dom. by apply Hreg.
    - apply stale_not_listed; [done|]. apply in_map_iff. by exists t. }
  split; [intros t Ht _; by apply Hall|by right].
Qed.

Lemma sync_deletes_last_witness :
  (forall t, In t [task_at "foo/C"] ->
     str (path t) ∈ dom (tasks world_foo_A_B) ->
     str (path t) ∈ dom (tasks (fst (sync deny_task_lookup elements
        [task_at "foo/C"] (VStr "S4U") None None world_foo_A_B))))
  /\ (dom (tasks world_foo_A_B)
        ⊆ dom (tasks (fst (sync deny_task_lookup elements
             [task_at "foo/C"] (VStr "S4U") None None world_foo_A_B)))
      \/ forall t, In t [task_at "foo/C"] ->
           str (path t) ∈ dom (tasks (fst (sync deny_task_lookup elements
             [task_at "foo/C"] (VStr "S4U") None None world_foo_A_B)))).
Proof.
  apply (sync_deletes_last deny_task_lookup elements [task_at "foo/C"]
           (VStr "S4U") None None world_foo_A_B _
           (snd (sync deny_task_lookup elements [task_at "foo/C"]
                      (VStr "S4U") None None world_foo_A_B))).
  - intros X p. by rewrite <- list_elem_of_In, elem_of_elements.
  - intros t [<-|[]]. reflexivity.
  - apply surjective_pairing.
Defined.
